(** * decimal32 (IEEE-754-2008, binary integer decimal) codec of dec32.go

    A shallow embedding of [package decimal]: the fixed-width integers of the
    Go source are integers of [Z] with their wrap-around written out, the
    bit operations are those of [Z], and [float32] is the binary32 instance
    of the Standard Library's [SpecFloat]. *)

From Stdlib Require Import ZArith Bool List Lia Btauto.
From Stdlib Require Import Floats.SpecFloat.
From coqutil Require Import Z.bitblast.

Local Open Scope Z_scope.
Local Open Scope bool_scope.

(** ** Fixed-width integers *)

Module Fixed.

(** Conversion to an unsigned [w]-bit integer: the value modulo [2^w]. *)
Definition unsigned (w x : Z) : Z := x mod 2 ^ w.

(** Conversion to a signed [w]-bit integer: two's complement. *)
Definition signed (w x : Z) : Z := (x + 2 ^ (w - 1)) mod 2 ^ w - 2 ^ (w - 1).

Definition uint32 : Z -> Z := unsigned 32.
Definition uint8 : Z -> Z := unsigned 8.
Definition int32 : Z -> Z := signed 32.
Definition int8 : Z -> Z := signed 8.

Definition is_int32 (x : Z) : Prop := - 2 ^ 31 <= x < 2 ^ 31.
Definition is_int8 (x : Z) : Prop := - 2 ^ 7 <= x < 2 ^ 7.

End Fixed.

Import Fixed.

(** ** The constants of dec32.go *)

(** [type Dec32 uint32] *)
Definition Dec32 : Type := Z.

Definition signMask : Z := 0x80000000.
Definition combMask : Z := 0x7c000000.
Definition expMask : Z := 0x03f00000.
Definition contMask : Z := 0x000fffff.

Definition coeffMaxBits : Z := 0x00800000.
Definition coeffMaxMask : Z := 0x00100000.

Definition signOffset : Z := 31.
Definition combOffset : Z := 26.
Definition expOffset : Z := 20.

Definition maxCoeff : Z := 9999999.
Definition minExp : Z := -95.
Definition maxExp : Z := 96.

Definition failDec32 : Dec32 := 0xffffffff.

(** ** Field accessors *)

(** [func (d Dec32) Sign() int] *)
Definition Sign (d : Dec32) : Z :=
  if Z.land d signMask =? signMask then -1 else 1.

(** [func (d Dec32) combBits() uint32] *)
Definition combBits (d : Dec32) : Z :=
  Z.shiftr (Z.land (uint32 d) combMask) combOffset.

(** [func (d Dec32) expBits() uint32] *)
Definition expBits (d : Dec32) : Z :=
  Z.shiftr (Z.land (uint32 d) expMask) expOffset.

(** [func (d Dec32) contBits() uint32] *)
Definition contBits (d : Dec32) : Z :=
  Z.land (uint32 d) contMask.

(** ** Encoding *)

(** [func EncodeDec32(coeff int32, exp int8) (Dec32, bool)].
    [0 - coeff] is an [int32] subtraction and wraps; every shift of a
    [uint32] is reduced modulo [2^32]. *)
Definition EncodeDec32 (coeff exp : Z) : Dec32 * bool :=
  let result := 0 in
  let '(result, coeff) :=
    if coeff <? 0
    then (Z.lor result signMask, int32 (0 - coeff))
    else (result, coeff) in
  if coeff >? maxCoeff then (failDec32, false)
  else if (exp <? minExp) || (exp >? maxExp) then (failDec32, false)
  else
    let result := Z.lor result (Z.land (uint32 coeff) contMask) in
    let uexp := uint8 exp in
    if Z.land coeffMaxBits coeff =? coeffMaxBits
    then
      (Z.lor result
         (Z.lor (Z.lor (Z.lor 0x60000000
                          (uint32 (Z.shiftl (Z.land uexp 0xc0) 21)))
                   (uint32 (Z.shiftl (Z.land (uint32 coeff) coeffMaxMask) 6)))
            (uint32 (Z.shiftl (Z.land uexp 0x3f) 20))),
       true)
    else
      (Z.lor result
         (Z.lor (Z.lor (uint32 (Z.shiftl (Z.land uexp 0xc0) 23))
                   (uint32 (Z.shiftl (Z.ldiff (uint32 coeff) contMask) 6)))
            (uint32 (Z.shiftl (Z.land uexp 0x3f) 20))),
       true).

(** ** Decoding *)

(** [func (d Dec32) Decode() (coeff int32, expn int8, ok bool)] *)
Definition Decode (d : Dec32) : Z * Z * bool :=
  let comb := combBits d in
  let exp := expBits d in
  let cont := contBits d in
  let '(coeff, expn, ok) :=
    if Z.land comb 0x18 =? 0x18
    then
      (int32 (Z.lor (Z.lor (uint32 (Z.shiftl (Z.land comb 0x01) 20))
                       coeffMaxBits) cont),
       int8 (Z.lor (Z.land (uint32 (Z.shiftl comb 5)) 0xc0) exp),
       true)
    else
      (int32 (Z.lor (uint32 (Z.shiftl (Z.land comb 0x07) 20)) cont),
       int8 (Z.lor (Z.land (uint32 (Z.shiftl comb 3)) 0xc0) exp),
       true) in
  let coeff :=
    if ok
    then if Z.land d signMask =? signMask then int32 (0 - coeff) else coeff
    else coeff in
  (coeff, expn, ok).

(** ** Classification *)

(** [func (d Dec32) Zero() bool] *)
Definition Zero (d : Dec32) : bool :=
  let '(coeff, _, _) := Decode d in
  (coeff =? 0) || (coeff >? maxCoeff).

(** [func (d Dec32) Valid() bool] *)
Definition Valid (d : Dec32) : bool :=
  let '(coeff, exp, ok) := Decode d in
  ok && (exp >=? minExp) && (exp <=? maxExp) && (coeff <=? maxCoeff).

(** [func (d Dec32) IsInf() bool] *)
Definition IsInf (d : Dec32) : bool := combBits d =? 0x1e.

(** [func (d Dec32) IsNaN() bool] *)
Definition IsNaN (d : Dec32) : bool := combBits d =? 0x1f.

(** ** Binary floating point *)

Module F32.

(** IEEE-754 binary32: 24 bits of precision, [emax = 128]. *)
Definition prec : Z := 24.
Definition emax : Z := 128.

Definition float32 : Type := spec_float.

(** Integer to [float32], rounding to nearest, ties to even. *)
Definition of_int (n : Z) : float32 := binary_normalize prec emax n 0 false.

Definition mul : float32 -> float32 -> float32 := SFmul prec emax.
Definition div : float32 -> float32 -> float32 := SFdiv prec emax.

Definition NaN : float32 := S754_nan.

End F32.

(** [func (d Dec32) Float32() float32] *)
Definition Float32 (d : Dec32) : F32.float32 :=
  let '(coeff, exp, ok) := Decode d in
  if negb ok then F32.NaN
  else if exp >? 0
  then F32.mul (F32.of_int coeff) (F32.mul (F32.of_int 10) (F32.of_int exp))
  else if exp <? 0
  then F32.mul (F32.of_int coeff)
         (F32.div (F32.of_int 1) (F32.mul (F32.of_int 10) (F32.of_int exp)))
  else F32.of_int coeff.

(** * Auxiliary definitions *)

(** ** The unsigned reading of a word *)

(** The coefficient that [Decode] assembles before it applies the sign. *)
Definition rawCoeff (d : Dec32) : Z :=
  let comb := combBits d in
  let cont := contBits d in
  if Z.land comb 0x18 =? 0x18
  then Z.lor (Z.lor (uint32 (Z.shiftl (Z.land comb 0x01) 20)) coeffMaxBits) cont
  else Z.lor (uint32 (Z.shiftl (Z.land comb 0x07) 20)) cont.

(** The exponent byte that [Decode] assembles before its conversion to
    [int8]. *)
Definition rawExp (d : Dec32) : Z :=
  let comb := combBits d in
  let exp := expBits d in
  if Z.land comb 0x18 =? 0x18
  then Z.lor (Z.land (uint32 (Z.shiftl comb 5)) 0xc0) exp
  else Z.lor (Z.land (uint32 (Z.shiftl comb 3)) 0xc0) exp.

(** ** The word assembled by [EncodeDec32] *)

(** The bits [EncodeDec32] assembles below the sign bit, for the magnitude
    [coeff] and the exponent [exp]. *)
Definition packed (coeff exp : Z) : Z :=
  let result := Z.lor 0 (Z.land (uint32 coeff) contMask) in
  let uexp := uint8 exp in
  if Z.land coeffMaxBits coeff =? coeffMaxBits
  then
    Z.lor result
      (Z.lor (Z.lor (Z.lor 0x60000000
                       (uint32 (Z.shiftl (Z.land uexp 0xc0) 21)))
                (uint32 (Z.shiftl (Z.land (uint32 coeff) coeffMaxMask) 6)))
         (uint32 (Z.shiftl (Z.land uexp 0x3f) 20)))
  else
    Z.lor result
      (Z.lor (Z.lor (uint32 (Z.shiftl (Z.land uexp 0xc0) 23))
                (uint32 (Z.shiftl (Z.ldiff (uint32 coeff) contMask) 6)))
         (uint32 (Z.shiftl (Z.land uexp 0x3f) 20))).

(** ** Comparing floats *)

(** Equality test on [spec_float]. *)
Definition sf_eqb (x y : spec_float) : bool :=
  match x, y with
  | S754_zero a, S754_zero b => Bool.eqb a b
  | S754_infinity a, S754_infinity b => Bool.eqb a b
  | S754_nan, S754_nan => true
  | S754_finite s m e, S754_finite s' m' e' =>
      Bool.eqb s s' && Pos.eqb m m' && Z.eqb e e'
  | _, _ => false
  end.

Ltac unfold_limits :=
  unfold maxCoeff, minExp, maxExp, is_int32, is_int8 in *.

(** Settles the range tests of [EncodeDec32] from the context. *)
Ltac range_tests :=
  repeat (cbv beta iota zeta;
          first
            [ rewrite Z.gtb_ltb
            | match goal with
              | |- context [?a <? ?b] =>
                  destruct (Z.ltb_spec a b); try (exfalso; unfold_limits; lia)
              end ];
          simpl orb).

(** * Properties *)

(** ** Constants as bit patterns *)

Lemma contMask_ones : contMask = Z.ones 20.
Proof. reflexivity. Qed.

Lemma expMask_ones : expMask = Z.shiftl (Z.ones 6) 20.
Proof. reflexivity. Qed.

Lemma combMask_ones : combMask = Z.shiftl (Z.ones 5) 26.
Proof. reflexivity. Qed.

Lemma signMask_pow2 : signMask = 2 ^ 31.
Proof. reflexivity. Qed.

(** A number all of whose bits from position [n] on are clear lies in
    [[0, 2^n)]. *)
Lemma bits_above_bound (n x : Z) :
  0 <= n ->
  (forall i, n <= i -> Z.testbit x i = false) ->
  0 <= x < 2 ^ n.
Proof.
  intros Hn Hhigh.
  assert (Hx : x = x mod 2 ^ n).
  { apply Z.bits_inj'. intros i Hi.
    rewrite Z.testbit_mod_pow2 by assumption.
    destruct (Z.ltb_spec i n) as [Hlt | Hge]; simpl.
    - reflexivity.
    - apply Hhigh. assumption. }
  rewrite Hx. apply Z.mod_pos_bound. apply Z.pow_pos_nonneg; lia.
Qed.

(** Conversely the bits of a number of [[0, 2^n)] are clear from [n] on. *)
Lemma bound_bits_above (n x i : Z) :
  0 <= x < 2 ^ n -> n <= i -> Z.testbit x i = false.
Proof.
  intros Hx Hi.
  destruct (Z.eq_dec x 0) as [-> | Hnz].
  - apply Z.testbit_0_l.
  - apply Z.bits_above_log2; [lia |].
    assert (Z.log2 x < n) by (apply Z.log2_lt_pow2; lia). lia.
Qed.

(** ** The bits of the three fields *)

Lemma combBits_spec (d : Dec32) (i : Z) :
  0 <= i -> Z.testbit (combBits d) i = (i <? 5) && Z.testbit d (i + 26).
Proof.
  intros Hi. unfold combBits, combOffset, uint32, unsigned.
  rewrite combMask_ones.
  Z.bitblast_core.
Qed.

Lemma expBits_spec (d : Dec32) (i : Z) :
  0 <= i -> Z.testbit (expBits d) i = (i <? 6) && Z.testbit d (i + 20).
Proof.
  intros Hi. unfold expBits, expOffset, uint32, unsigned.
  rewrite expMask_ones.
  Z.bitblast_core.
Qed.

Lemma contBits_spec (d : Dec32) (i : Z) :
  0 <= i -> Z.testbit (contBits d) i = (i <? 20) && Z.testbit d i.
Proof.
  intros Hi. unfold contBits, uint32, unsigned.
  rewrite contMask_ones.
  Z.bitblast_core.
Qed.

Lemma signMask_spec (i : Z) :
  Z.testbit signMask i = (i =? 31).
Proof.
  rewrite signMask_pow2, Z.pow2_bits_eqb by lia. apply Z.eqb_sym.
Qed.

Lemma combBits_range (d : Dec32) : 0 <= combBits d < 2 ^ 5.
Proof.
  apply bits_above_bound; [lia |]. intros i Hi.
  rewrite combBits_spec by lia.
  destruct (Z.ltb_spec i 5); [lia | reflexivity].
Qed.

Lemma expBits_range (d : Dec32) : 0 <= expBits d < 2 ^ 6.
Proof.
  apply bits_above_bound; [lia |]. intros i Hi.
  rewrite expBits_spec by lia.
  destruct (Z.ltb_spec i 6); [lia | reflexivity].
Qed.

Lemma contBits_range (d : Dec32) : 0 <= contBits d < 2 ^ 20.
Proof.
  apply bits_above_bound; [lia |]. intros i Hi.
  rewrite contBits_spec by lia.
  destruct (Z.ltb_spec i 20); [lia | reflexivity].
Qed.

(** The three fields do not see the sign bit. *)
Lemma combBits_lor_signMask (w : Dec32) :
  combBits (Z.lor signMask w) = combBits w.
Proof.
  apply Z.bits_inj'. intros i Hi.
  rewrite !combBits_spec, Z.lor_spec, signMask_spec by assumption.
  destruct (Z.ltb_spec i 5); [| reflexivity].
  destruct (Z.eqb_spec (i + 26) 31); [lia | reflexivity].
Qed.

Lemma expBits_lor_signMask (w : Dec32) :
  expBits (Z.lor signMask w) = expBits w.
Proof.
  apply Z.bits_inj'. intros i Hi.
  rewrite !expBits_spec, Z.lor_spec, signMask_spec by assumption.
  destruct (Z.ltb_spec i 6); [| reflexivity].
  destruct (Z.eqb_spec (i + 20) 31); [lia | reflexivity].
Qed.

Lemma contBits_lor_signMask (w : Dec32) :
  contBits (Z.lor signMask w) = contBits w.
Proof.
  apply Z.bits_inj'. intros i Hi.
  rewrite !contBits_spec, Z.lor_spec, signMask_spec by assumption.
  destruct (Z.ltb_spec i 20); [| reflexivity].
  destruct (Z.eqb_spec i 31); [lia | reflexivity].
Qed.

(** The sign test of [Decode] and [Sign] reads bit 31. *)
Lemma sign_test_spec (d : Dec32) :
  (Z.land d signMask =? signMask) = Z.testbit d 31.
Proof.
  destruct (Z.testbit d 31) eqn:Hb.
  - apply Z.eqb_eq. apply Z.bits_inj'. intros i Hi.
    rewrite Z.land_spec, signMask_spec.
    destruct (Z.eqb_spec i 31) as [-> | Hne].
    + rewrite Hb. reflexivity.
    + apply andb_false_r.
  - apply Z.eqb_neq. intros Heq.
    assert (Hbit : Z.testbit (Z.land d signMask) 31 = Z.testbit signMask 31)
      by (rewrite Heq; reflexivity).
    rewrite Z.land_spec, Hb in Hbit. discriminate Hbit.
Qed.

(** ** Ranges of bit operations *)

Section Ranges.

Variable n : Z.
Hypothesis n_nonneg : 0 <= n.

Lemma lor_range (a b : Z) :
  0 <= a < 2 ^ n -> 0 <= b < 2 ^ n -> 0 <= Z.lor a b < 2 ^ n.
Proof.
  intros Ha Hb. apply bits_above_bound; [assumption |]. intros i Hi.
  rewrite Z.lor_spec, (bound_bits_above n a i), (bound_bits_above n b i);
    auto.
Qed.

Lemma land_range_r (a b : Z) :
  0 <= b < 2 ^ n -> 0 <= Z.land a b < 2 ^ n.
Proof.
  intros Hb. apply bits_above_bound; [assumption |]. intros i Hi.
  rewrite Z.land_spec, (bound_bits_above n b i) by auto.
  apply andb_false_r.
Qed.

Lemma ldiff_range (a b : Z) :
  0 <= a < 2 ^ n -> 0 <= Z.ldiff a b < 2 ^ n.
Proof.
  intros Ha. apply bits_above_bound; [assumption |]. intros i Hi.
  rewrite Z.ldiff_spec, (bound_bits_above n a i) by auto.
  reflexivity.
Qed.

Lemma shiftl_range (k a : Z) :
  0 <= k -> 0 <= a < 2 ^ n -> 0 <= Z.shiftl a k < 2 ^ (n + k).
Proof.
  intros Hk Ha. rewrite Z.shiftl_mul_pow2, Z.pow_add_r by assumption.
  assert (0 < 2 ^ k) by (apply Z.pow_pos_nonneg; lia). nia.
Qed.

Lemma range_weaken (m a : Z) :
  n <= m -> 0 <= a < 2 ^ n -> 0 <= a < 2 ^ m.
Proof.
  intros Hm Ha.
  assert (2 ^ n <= 2 ^ m) by (apply Z.pow_le_mono_r; lia). lia.
Qed.

Lemma uint32_small (a : Z) :
  n <= 32 -> 0 <= a < 2 ^ n -> uint32 a = a.
Proof.
  intros Hn Ha. unfold uint32, unsigned. apply Z.mod_small.
  apply (range_weaken 32) in Ha; assumption.
Qed.

End Ranges.

Lemma uint8_range (x : Z) : 0 <= uint8 x < 2 ^ 8.
Proof. unfold uint8, unsigned. apply Z.mod_pos_bound. lia. Qed.

Lemma int32_small (x : Z) : is_int32 x -> int32 x = x.
Proof.
  unfold is_int32, int32, signed. intros Hx.
  change (32 - 1) with 31. rewrite Z.mod_small; lia.
Qed.

Lemma int8_small (x : Z) : is_int8 x -> int8 x = x.
Proof.
  unfold is_int8, int8, signed. intros Hx.
  change (8 - 1) with 7. rewrite Z.mod_small; lia.
Qed.

(** ** The unsigned reading of a word *)

Lemma Decode_raw (d : Dec32) :
  Decode d =
  (if Z.testbit d 31 then int32 (0 - int32 (rawCoeff d)) else int32 (rawCoeff d),
   int8 (rawExp d), true).
Proof.
  unfold Decode, rawCoeff, rawExp. rewrite sign_test_spec.
  destruct (Z.land (combBits d) 24 =? 24); reflexivity.
Qed.

Lemma rawCoeff_range (d : Dec32) : 0 <= rawCoeff d < 2 ^ 24.
Proof.
  unfold rawCoeff.
  pose proof (contBits_range d) as Hcont.
  apply (range_weaken 20 ltac:(lia) 24) in Hcont; [| lia].
  destruct (Z.land (combBits d) 24 =? 24).
  - apply lor_range; [lia | | assumption].
    apply lor_range; [lia | | unfold coeffMaxBits; lia].
    assert (Hs : 0 <= Z.shiftl (Z.land (combBits d) 1) 20 < 2 ^ (1 + 20))
      by (apply shiftl_range; [lia | lia | apply land_range_r; lia]).
    rewrite (uint32_small 21) by (assumption || lia).
    apply (range_weaken 21); [lia | lia | assumption].
  - apply lor_range; [lia | | assumption].
    assert (Hs : 0 <= Z.shiftl (Z.land (combBits d) 7) 20 < 2 ^ (3 + 20))
      by (apply shiftl_range; [lia | lia | apply land_range_r; lia]).
    rewrite (uint32_small 23) by (assumption || lia).
    apply (range_weaken 23); [lia | lia | assumption].
Qed.

Lemma rawExp_range (d : Dec32) : 0 <= rawExp d < 2 ^ 8.
Proof.
  unfold rawExp.
  pose proof (expBits_range d) as Hexp.
  apply (range_weaken 6 ltac:(lia) 8) in Hexp; [| lia].
  destruct (Z.land (combBits d) 24 =? 24);
    (apply lor_range; [lia | apply land_range_r; lia | assumption]).
Qed.

(** [Decode] in terms of the unsigned reading: no conversion wraps. *)
Lemma Decode_spec (d : Dec32) :
  Decode d =
  (if Z.testbit d 31 then - rawCoeff d else rawCoeff d,
   int8 (rawExp d), true).
Proof.
  rewrite Decode_raw.
  pose proof (rawCoeff_range d) as Hc.
  rewrite (int32_small (rawCoeff d)) by (unfold is_int32; lia).
  rewrite int32_small by (unfold is_int32; lia).
  rewrite Z.sub_0_l. reflexivity.
Qed.

Lemma rawCoeff_lor_signMask (w : Dec32) :
  rawCoeff (Z.lor signMask w) = rawCoeff w.
Proof.
  unfold rawCoeff.
  rewrite combBits_lor_signMask, contBits_lor_signMask. reflexivity.
Qed.

Lemma rawExp_lor_signMask (w : Dec32) :
  rawExp (Z.lor signMask w) = rawExp w.
Proof.
  unfold rawExp.
  rewrite combBits_lor_signMask, expBits_lor_signMask. reflexivity.
Qed.

(** ** The word assembled by [EncodeDec32] *)

Lemma EncodeDec32_nonneg (c e : Z) :
  0 <= c <= maxCoeff -> minExp <= e <= maxExp ->
  EncodeDec32 c e = (packed c e, true).
Proof.
  intros Hc He. unfold EncodeDec32, packed.
  range_tests.
  destruct (Z.land coeffMaxBits c =? coeffMaxBits); reflexivity.
Qed.

Lemma EncodeDec32_neg (c e : Z) :
  0 < c <= maxCoeff -> minExp <= e <= maxExp ->
  EncodeDec32 (- c) e = (Z.lor signMask (packed c e), true).
Proof.
  intros Hc He. unfold EncodeDec32, packed.
  replace (0 - - c) with c by lia.
  rewrite (int32_small c) by (unfold_limits; lia).
  range_tests.
  rewrite !Z.lor_0_l.
  destruct (Z.land coeffMaxBits c =? coeffMaxBits);
    rewrite <- Z.lor_assoc; reflexivity.
Qed.

Lemma packed_range (c e : Z) :
  0 <= c <= maxCoeff -> 0 <= packed c e < 2 ^ 31.
Proof.
  intros Hc. unfold packed.
  assert (Hc24 : 0 <= c < 2 ^ 24) by (unfold_limits; lia).
  pose proof (uint8_range e) as Hu.
  rewrite (uint32_small 24 ltac:(lia) c) by (assumption || lia).
  assert (Hlow : 0 <= Z.shiftl (Z.land (uint8 e) 0x3f) 20 < 2 ^ (6 + 20))
    by (apply shiftl_range; [lia | lia | apply land_range_r; lia]).
  rewrite (uint32_small 26 ltac:(lia) (Z.shiftl (Z.land (uint8 e) 0x3f) 20))
    by (assumption || lia).
  apply (range_weaken 26 ltac:(lia) 31) in Hlow; [| lia].
  rewrite Z.lor_0_l.
  assert (Hcont : 0 <= Z.land c contMask < 2 ^ 31).
  { apply (range_weaken 20); [lia | lia |].
    apply land_range_r; [lia | unfold contMask; lia]. }
  destruct (Z.land coeffMaxBits c =? coeffMaxBits).
  - assert (Hhigh : 0 <= Z.shiftl (Z.land (uint8 e) 0xc0) 21 < 2 ^ (8 + 21))
      by (apply shiftl_range; [lia | lia | apply land_range_r; lia]).
    rewrite (uint32_small 29 ltac:(lia) (Z.shiftl (Z.land (uint8 e) 0xc0) 21))
      by (assumption || lia).
    assert (Hmid : 0 <= Z.shiftl (Z.land c coeffMaxMask) 6 < 2 ^ (21 + 6))
      by (apply shiftl_range;
          [lia | lia | apply land_range_r; [lia | unfold coeffMaxMask; lia]]).
    rewrite (uint32_small 27 ltac:(lia) (Z.shiftl (Z.land c coeffMaxMask) 6))
      by (assumption || lia).
    apply (range_weaken 29 ltac:(lia) 31) in Hhigh; [| lia].
    apply (range_weaken 27 ltac:(lia) 31) in Hmid; [| lia].
    repeat (apply lor_range; [lia | | ]); try assumption. lia.
  - assert (Hhigh : 0 <= Z.shiftl (Z.land (uint8 e) 0xc0) 23 < 2 ^ (8 + 23))
      by (apply shiftl_range; [lia | lia | apply land_range_r; lia]).
    rewrite (uint32_small 31 ltac:(lia) (Z.shiftl (Z.land (uint8 e) 0xc0) 23))
      by (assumption || lia).
    assert (Hmid : 0 <= Z.shiftl (Z.ldiff c contMask) 6 < 2 ^ (24 + 6))
      by (apply shiftl_range; [lia | lia | apply ldiff_range; [lia | assumption]]).
    rewrite (uint32_small 30 ltac:(lia) (Z.shiftl (Z.ldiff c contMask) 6))
      by (assumption || lia).
    apply (range_weaken 30 ltac:(lia) 31) in Hmid; [| lia].
    repeat (apply lor_range; [lia | | ]); assumption.
Qed.

(** ** Decoding never fails *)

(** C4. [Decode] is a total function, and on every word (so on each of the
    [2^32] words of type [Dec32]) it returns a coefficient and an exponent
    together with [ok = true]: the failure outcome is unreachable. *)
Theorem Decode_total (d : Dec32) :
  exists coeff expn, Decode d = (coeff, expn, true).
Proof.
  rewrite Decode_spec. eauto.
Qed.

Lemma int8_range (x : Z) : is_int8 (int8 x).
Proof.
  unfold is_int8, int8, signed. change (8 - 1) with 7.
  pose proof (Z.mod_pos_bound (x + 2 ^ 7) (2 ^ 8) ltac:(lia)). lia.
Qed.

(** Both results of [Decode] fit their Go types. *)
Lemma Decode_in_range (d : Dec32) (coeff expn : Z) (ok : bool) :
  Decode d = (coeff, expn, ok) -> is_int32 coeff /\ is_int8 expn.
Proof.
  rewrite Decode_spec. intros Heq.
  assert (Hc : coeff = if Z.testbit d 31 then - rawCoeff d else rawCoeff d)
    by congruence.
  assert (He : expn = int8 (rawExp d)) by congruence.
  pose proof (rawCoeff_range d) as Hr.
  split.
  - rewrite Hc. unfold is_int32. destruct (Z.testbit d 31); lia.
  - rewrite He. apply int8_range.
Qed.

(** ** Boundary vectors *)

(** C7. The five boundary inputs of the test table encode, successfully, to
    the words the table lists: minimal and maximal exponent, maximal
    coefficient (large form), maximal 23-bit coefficient (normal form) and
    the first coefficient that needs the large form. *)
Theorem EncodeDec32_boundary_words :
  EncodeDec32 2 (-95) = (0x42100002, true) /\
  EncodeDec32 2 96 = (0x22000002, true) /\
  EncodeDec32 9999999 0 = (0x6408967f, true) /\
  EncodeDec32 8388607 0 = (0x1c0fffff, true) /\
  EncodeDec32 8388608 0 = (0x60000000, true).
Proof.
  repeat split; vm_compute; reflexivity.
Qed.

(** The rejected rows of the same table. *)
Lemma EncodeDec32_boundary_failures :
  EncodeDec32 2 (-96) = (failDec32, false) /\
  EncodeDec32 2 97 = (failDec32, false) /\
  EncodeDec32 10000000 0 = (failDec32, false) /\
  EncodeDec32 (-10000000) 0 = (failDec32, false).
Proof.
  repeat split; vm_compute; reflexivity.
Qed.

(** ** Special values *)

(** C8. [IsInf] holds exactly when bits 30-26 of the word read [11110],
    [IsNaN] exactly when they read [11111], and the two never hold
    together. *)
Theorem IsInf_IsNaN_comb (d : Dec32) :
  (IsInf d = true <->
   Z.testbit d 30 = true /\ Z.testbit d 29 = true /\ Z.testbit d 28 = true /\
   Z.testbit d 27 = true /\ Z.testbit d 26 = false) /\
  (IsNaN d = true <->
   Z.testbit d 30 = true /\ Z.testbit d 29 = true /\ Z.testbit d 28 = true /\
   Z.testbit d 27 = true /\ Z.testbit d 26 = true) /\
  ~ (IsInf d = true /\ IsNaN d = true).
Proof.
  assert (Hbits : forall v,
             combBits d = v <->
             forall i, 0 <= i -> (i <? 5) && Z.testbit d (i + 26) = Z.testbit v i).
  { intros v. split.
    - intros <- i Hi. symmetry. apply combBits_spec. assumption.
    - intros Hall. apply Z.bits_inj'. intros i Hi.
      rewrite combBits_spec by assumption. apply Hall. assumption. }
  assert (Hfive : forall v, 0 <= v < 2 ^ 5 ->
             (forall i, 0 <= i -> (i <? 5) && Z.testbit d (i + 26) = Z.testbit v i) <->
             Z.testbit d 30 = Z.testbit v 4 /\ Z.testbit d 29 = Z.testbit v 3 /\
             Z.testbit d 28 = Z.testbit v 2 /\ Z.testbit d 27 = Z.testbit v 1 /\
             Z.testbit d 26 = Z.testbit v 0).
  { intros v Hv. split.
    - intros Hall.
      pose proof (Hall 4 ltac:(lia)) as H4. pose proof (Hall 3 ltac:(lia)) as H3.
      pose proof (Hall 2 ltac:(lia)) as H2. pose proof (Hall 1 ltac:(lia)) as H1.
      pose proof (Hall 0 ltac:(lia)) as H0.
      simpl in H4, H3, H2, H1, H0. auto.
    - intros (H4 & H3 & H2 & H1 & H0) i Hi.
      destruct (Z.ltb_spec i 5) as [Hlt | Hge]; simpl.
      + assert (Hcase : i = 0 \/ i = 1 \/ i = 2 \/ i = 3 \/ i = 4) by lia.
        destruct Hcase as [-> | [-> | [-> | [-> | ->]]]]; simpl; assumption.
      + symmetry. apply (bound_bits_above 5); assumption. }
  unfold IsInf, IsNaN. rewrite !Z.eqb_eq, !Hbits.
  rewrite (Hfive 0x1e) by lia. rewrite (Hfive 0x1f) by lia.
  simpl Z.testbit.
  repeat split; try tauto.
  intros [(_ & _ & _ & _ & Hinf) (_ & _ & _ & _ & Hnan)]. congruence.
Qed.

(** C10. An in-range finite input can encode, with success, to a word that
    the classification reads as a special value: [(8388608, -1)] gives
    [0x7bf00000], whose combination field is [11110], so [IsInf] holds. *)
Theorem EncodeDec32_in_range_yet_IsInf :
  Z.abs 8388608 <= maxCoeff /\ minExp <= -1 <= maxExp /\
  EncodeDec32 8388608 (-1) = (0x7bf00000, true) /\
  combBits 0x7bf00000 = 0x1e /\
  IsInf 0x7bf00000 = true.
Proof.
  repeat split; vm_compute; congruence.
Qed.

(** ** Sign symmetry *)

Lemma lxor_lor_signMask (w : Z) :
  0 <= w < 2 ^ 31 -> Z.lxor w (Z.lor signMask w) = signMask.
Proof.
  intros Hw. apply Z.bits_inj'. intros i Hi.
  rewrite Z.lxor_spec, Z.lor_spec, signMask_spec.
  destruct (Z.eqb_spec i 31) as [-> | Hne].
  - rewrite (bound_bits_above 31 w 31) by (assumption || lia). reflexivity.
  - simpl. apply xorb_nilpotent.
Qed.

Lemma testbit_31_lor_signMask (w : Z) :
  Z.testbit (Z.lor signMask w) 31 = true.
Proof. rewrite Z.lor_spec, signMask_spec. reflexivity. Qed.

(** C9. For a coefficient [c] of [[1, 9999999]] and an exponent of
    [[-95, 96]], [EncodeDec32] succeeds on [c] and on [-c]; the two words
    differ in bit 31 and nowhere else; and they decode to opposite
    coefficients with the same exponent. *)
Theorem EncodeDec32_sign_symmetry (c e : Z) :
  1 <= c <= 9999999 -> -95 <= e <= 96 ->
  exists w wn c1 e1,
    EncodeDec32 c e = (w, true) /\
    EncodeDec32 (- c) e = (wn, true) /\
    Z.lxor w wn = signMask /\
    Decode w = (c1, e1, true) /\
    Decode wn = (- c1, e1, true).
Proof.
  intros Hc He.
  exists (packed c e), (Z.lor signMask (packed c e)),
    (rawCoeff (packed c e)), (int8 (rawExp (packed c e))).
  assert (Hw : 0 <= packed c e < 2 ^ 31)
    by (apply packed_range; unfold maxCoeff; lia).
  repeat split.
  - apply EncodeDec32_nonneg; unfold_limits; lia.
  - apply EncodeDec32_neg; unfold_limits; lia.
  - apply lxor_lor_signMask. assumption.
  - rewrite Decode_spec.
    rewrite (bound_bits_above 31 (packed c e) 31) by (assumption || lia).
    reflexivity.
  - rewrite Decode_spec, testbit_31_lor_signMask.
    rewrite rawCoeff_lor_signMask, rawExp_lor_signMask. reflexivity.
Qed.

Lemma EncodeDec32_sign_symmetry_witness :
  1 <= 2 <= 9999999 /\ -95 <= -95 <= 96 /\
  exists w wn c1 e1,
    EncodeDec32 2 (-95) = (w, true) /\
    EncodeDec32 (- 2) (-95) = (wn, true) /\
    Z.lxor w wn = signMask /\
    Decode w = (c1, e1, true) /\
    Decode wn = (- c1, e1, true).
Proof.
  split; [lia | split; [lia | apply (EncodeDec32_sign_symmetry 2 (-95)); lia]].
Defined.

(** ** Validity *)

(** C5 (the code departs from it). [Valid] tests the signed coefficient
    against [maxCoeff], not its magnitude: the word [0xe40fffff] has the
    sign bit set and the coefficient bit pattern [10485759], above
    [9999999]; [Decode] yields [-10485759] and [Valid] answers [true], where
    the same pattern with the sign bit clear, [0x640fffff], answers [false].
    An in-range negative value such as [0x80000001] is valid, as it should
    be. *)
Theorem Valid_negative_out_of_range :
  Z.testbit 0xe40fffff 31 = true /\
  Decode 0xe40fffff = (-10485759, 0, true) /\
  minExp <= 0 <= maxExp /\
  maxCoeff < Z.abs (-10485759) /\
  Valid 0xe40fffff = true /\
  Decode 0x640fffff = (10485759, 0, true) /\
  Valid 0x640fffff = false /\
  Decode 0x80000001 = (-1, 0, true) /\
  Valid 0x80000001 = true.
Proof.
  repeat split; vm_compute; congruence.
Qed.

(** The validity row of the test table. *)
Lemma Valid_max_coefficient :
  Decode 0x6408967f = (maxCoeff, 0, true) /\ Valid 0x6408967f = true.
Proof. split; vm_compute; reflexivity. Qed.

(** ** Zero *)

(** What [Zero] computes: the magnitude is zero, or the sign bit is clear
    and the magnitude exceeds [maxCoeff]. *)
Lemma Zero_spec (d : Dec32) :
  Zero d = true <->
  rawCoeff d = 0 \/ (Z.testbit d 31 = false /\ maxCoeff < rawCoeff d).
Proof.
  unfold Zero. rewrite Decode_spec.
  pose proof (rawCoeff_range d) as Hr.
  rewrite orb_true_iff, Z.eqb_eq, Z.gtb_ltb, Z.ltb_lt.
  unfold maxCoeff.
  destruct (Z.testbit d 31); split; intros [H | H];
    try (left; lia); try (right; split; [reflexivity | lia]);
    try (destruct H as [H _]; discriminate H); lia.
Qed.

(** C6 (the code departs from it). The word [0xe40fffff] carries the
    coefficient bit pattern [10485759], above [9999999], with the sign bit
    set: [Decode] yields [-10485759] and [Zero] answers [false], where the
    same pattern with the sign bit clear, [0x640fffff], answers [true]. *)
Theorem Zero_negative_out_of_range :
  Z.testbit 0xe40fffff 31 = true /\
  rawCoeff 0xe40fffff = 10485759 /\
  maxCoeff < rawCoeff 0xe40fffff /\
  Decode 0xe40fffff = (-10485759, 0, true) /\
  Zero 0xe40fffff = false /\
  Zero 0x640fffff = true.
Proof.
  repeat split; vm_compute; reflexivity.
Qed.

(** The zero row of the test table. *)
Lemma Zero_all_zero_word : Zero 0x0 = true.
Proof. reflexivity. Qed.

(** ** Range rejection *)

(** X3. Away from the least [int32], whose negation wraps, [EncodeDec32]
    fails exactly on the out-of-range inputs, its failure is the all-ones
    word with [false], and every in-range input succeeds. *)
Lemma EncodeDec32_fails_iff (c e : Z) :
  - 2 ^ 31 < c < 2 ^ 31 ->
  (EncodeDec32 c e = (failDec32, false) <->
   maxCoeff < Z.abs c \/ e < minExp \/ maxExp < e) /\
  (snd (EncodeDec32 c e) = false -> fst (EncodeDec32 c e) = failDec32) /\
  (Z.abs c <= maxCoeff -> minExp <= e <= maxExp ->
   snd (EncodeDec32 c e) = true).
Proof.
  intros Hc.
  assert (Hcases :
            (maxCoeff < Z.abs c \/ e < minExp \/ maxExp < e) /\
            EncodeDec32 c e = (failDec32, false) \/
            (Z.abs c <= maxCoeff /\ minExp <= e <= maxExp) /\
            snd (EncodeDec32 c e) = true).
  { unfold EncodeDec32.
    destruct (Z.ltb_spec c 0) as [Hneg | Hpos]; cbv beta iota zeta.
    - replace (0 - c) with (- c) by lia.
      rewrite (int32_small (- c)) by (unfold is_int32; lia).
      rewrite !Z.gtb_ltb.
      destruct (Z.ltb_spec maxCoeff (- c)); [left; split; [lia | reflexivity] |].
      destruct (Z.ltb_spec e minExp); [left; split; [lia | reflexivity] |].
      destruct (Z.ltb_spec maxExp e); [left; split; [lia | reflexivity] |].
      right. split; [lia |]. simpl orb. cbv beta iota.
      destruct (Z.land coeffMaxBits (- c) =? coeffMaxBits); reflexivity.
    - rewrite !Z.gtb_ltb.
      destruct (Z.ltb_spec maxCoeff c); [left; split; [lia | reflexivity] |].
      destruct (Z.ltb_spec e minExp); [left; split; [lia | reflexivity] |].
      destruct (Z.ltb_spec maxExp e); [left; split; [lia | reflexivity] |].
      right. split; [lia |]. simpl orb. cbv beta iota.
      destruct (Z.land coeffMaxBits c =? coeffMaxBits); reflexivity. }
  destruct Hcases as [[Hout Hfail] | [Hin Hok]].
  - rewrite Hfail. simpl. repeat split; auto. lia.
  - repeat split.
    + intros Heq. rewrite Heq in Hok. discriminate Hok.
    + lia.
    + intros Hf. rewrite Hok in Hf. discriminate Hf.
    + auto.
Qed.

(** C2 (the code departs from it). The least [int32] has magnitude [2^31],
    far above [9999999], yet [0 - coeff] wraps back to it, the test
    [coeff > maxCoeff] does not fire, and the encoder answers the word
    [0x80000000] (a negative zero) with [true]. *)
Theorem EncodeDec32_min_int32 :
  is_int32 (-2147483648) /\ is_int8 0 /\
  maxCoeff < Z.abs (-2147483648) /\
  EncodeDec32 (-2147483648) 0 = (0x80000000, true) /\
  Decode 0x80000000 = (0, 0, true).
Proof.
  unfold is_int32, is_int8. repeat split; vm_compute; congruence.
Qed.

(** ** The bits of the assembled word and of its reading *)

(** The two branch tests read single bits. *)
Lemma large_test_coeff (c : Z) :
  (Z.land coeffMaxBits c =? coeffMaxBits) = Z.testbit c 23.
Proof.
  destruct (Z.testbit c 23) eqn:Hb.
  - apply Z.eqb_eq. change coeffMaxBits with (2 ^ 23).
    apply Z.bits_inj'. intros i Hi.
    rewrite Z.land_spec, Z.pow2_bits_eqb by lia.
    destruct (Z.eqb_spec 23 i) as [<- | Hne]; [rewrite Hb |]; reflexivity.
  - apply Z.eqb_neq. intros Heq.
    assert (Hbit : Z.testbit (Z.land coeffMaxBits c) 23 = Z.testbit coeffMaxBits 23)
      by (rewrite Heq; reflexivity).
    rewrite Z.land_spec, Hb, andb_false_r in Hbit. discriminate Hbit.
Qed.

Lemma large_test_comb (d : Dec32) :
  (Z.land (combBits d) 0x18 =? 0x18) = Z.testbit d 29 && Z.testbit d 30.
Proof.
  assert (H3 : Z.testbit (combBits d) 3 = Z.testbit d 29)
    by (rewrite combBits_spec by lia; reflexivity).
  assert (H4 : Z.testbit (combBits d) 4 = Z.testbit d 30)
    by (rewrite combBits_spec by lia; reflexivity).
  rewrite <- H3, <- H4. generalize (combBits d). intros x.
  destruct (Z.testbit x 3 && Z.testbit x 4) eqn:Hb.
  - apply andb_true_iff in Hb. destruct Hb as [Hb3 Hb4].
    apply Z.eqb_eq. change 0x18 with (Z.shiftl (Z.ones 2) 3).
    apply Z.bits_inj'. intros i Hi.
    rewrite Z.land_spec.
    destruct (Z.testbit (Z.shiftl (Z.ones 2) 3) i) eqn:Hm;
      [| apply andb_false_r].
    rewrite andb_true_r.
    assert (Hcase : i = 3 \/ i = 4).
    { rewrite Z.shiftl_spec in Hm by assumption.
      destruct (Z.ltb_spec i 3); [rewrite Z.testbit_neg_r in Hm by lia; discriminate |].
      destruct (Z.ltb_spec i 5); [lia |].
      rewrite Z.ones_spec_high in Hm by lia. discriminate. }
    destruct Hcase as [-> | ->]; assumption.
  - apply Z.eqb_neq. intros Heq.
    assert (E3 : Z.testbit (Z.land x 24) 3 = true) by (rewrite Heq; reflexivity).
    assert (E4 : Z.testbit (Z.land x 24) 4 = true) by (rewrite Heq; reflexivity).
    rewrite Z.land_spec in E3, E4.
    apply andb_true_iff in E3, E4. destruct E3 as [E3 _], E4 as [E4 _].
    rewrite E3, E4 in Hb. discriminate Hb.
Qed.

Lemma packed_normal_eq (c e : Z) :
  Z.testbit c 23 = false ->
  packed c e =
  Z.lor (Z.land (c mod 2 ^ 32) (Z.ones 20))
    (Z.lor (Z.lor (Z.shiftl (Z.land (e mod 2 ^ 8) (Z.shiftl (Z.ones 2) 6)) 23 mod 2 ^ 32)
              (Z.shiftl (Z.ldiff (c mod 2 ^ 32) (Z.ones 20)) 6 mod 2 ^ 32))
       (Z.shiftl (Z.land (e mod 2 ^ 8) (Z.ones 6)) 20 mod 2 ^ 32)).
Proof.
  intros Hb. unfold packed. rewrite large_test_coeff, Hb. reflexivity.
Qed.

(** Pushes [Z.testbit] through the bit operations, then settles the index
    comparisons from the context. *)
Ltac push_testbit :=
  repeat first
    [ rewrite Z.lor_spec | rewrite Z.land_spec | rewrite Z.ldiff_spec
    | rewrite Z.shiftl_spec' | rewrite Z.shiftr_spec'
    | rewrite Z.testbit_mod_pow2 by lia
    | rewrite Z.testbit_ones_nonneg' by lia ].

Ltac decide_ltbs :=
  repeat match goal with
         | |- context [?a <? ?b] =>
             first [ destruct (Z.ltb_spec a b); [| exfalso; lia]
                   | destruct (Z.ltb_spec a b); [exfalso; lia |] ]
         end.

Ltac split_ltbs :=
  repeat match goal with
         | |- context [?a <? ?b] => destruct (Z.ltb_spec a b)
         end.

Ltac drop_negative_bits :=
  repeat match goal with
         | |- context [Z.testbit ?a ?n] => rewrite (Z.testbit_neg_r a n) by lia
         end.

Ltac word_bits :=
  push_testbit; decide_ltbs; split_ltbs; drop_negative_bits;
  cbn [andb orb negb]; try btauto.

Lemma packed_normal_bits (c e i : Z) :
  0 <= c < 2 ^ 23 -> 0 <= i ->
  Z.testbit (packed c e) i =
  if i <? 20 then Z.testbit c i
  else if i <? 26 then Z.testbit e (i - 20)
  else if i <? 29 then Z.testbit c (i - 6)
  else if i <? 31 then Z.testbit e (i - 23)
  else false.
Proof.
  intros Hc Hi.
  rewrite packed_normal_eq by (apply (bound_bits_above 23); lia).
  assert (Hcm : c = c mod 2 ^ 23) by (symmetry; apply Z.mod_small; assumption).
  rewrite Hcm.
  assert (Hcase : i < 20 \/ 20 <= i < 26 \/ 26 <= i < 29 \/ 29 <= i < 31 \/ 31 <= i) by lia.
  destruct Hcase as [H | [H | [H | [H | H]]]].
  - word_bits.
  - word_bits.
  - word_bits.
  - word_bits.
  - word_bits.
Qed.

Lemma packed_large_eq (c e : Z) :
  Z.testbit c 23 = true ->
  packed c e =
  Z.lor (Z.land (c mod 2 ^ 32) (Z.ones 20))
    (Z.lor (Z.lor (Z.lor (Z.shiftl (Z.ones 2) 29)
                     (Z.shiftl (Z.land (e mod 2 ^ 8) (Z.shiftl (Z.ones 2) 6)) 21 mod 2 ^ 32))
              (Z.shiftl (Z.land (c mod 2 ^ 32) (Z.shiftl (Z.ones 1) 20)) 6 mod 2 ^ 32))
       (Z.shiftl (Z.land (e mod 2 ^ 8) (Z.ones 6)) 20 mod 2 ^ 32)).
Proof.
  intros Hb. unfold packed. rewrite large_test_coeff, Hb. reflexivity.
Qed.

Lemma packed_large_bits (c e i : Z) :
  Z.testbit c 23 = true -> 0 <= i ->
  Z.testbit (packed c e) i =
  if i <? 20 then Z.testbit c i
  else if i <? 26 then Z.testbit e (i - 20)
  else if i <? 27 then Z.testbit c (i - 6)
  else if i <? 29 then Z.testbit e (i - 21)
  else if i <? 31 then true
  else false.
Proof.
  intros Hc Hi.
  rewrite packed_large_eq by assumption.
  assert (Hcase : i < 20 \/ 20 <= i < 26 \/ 26 <= i < 27 \/ 27 <= i < 29 \/
                  29 <= i < 31 \/ 31 <= i) by lia.
  destruct Hcase as [H | [H | [H | [H | [H | H]]]]]; word_bits.
Qed.

Lemma combBits_bit (d : Dec32) (i : Z) :
  Z.testbit (combBits d) i = negb (i <? 0) && ((i <? 5) && Z.testbit d (i + 26)).
Proof.
  destruct (Z.ltb_spec i 0).
  - apply Z.testbit_neg_r. assumption.
  - apply combBits_spec. assumption.
Qed.

Lemma expBits_bit (d : Dec32) (i : Z) :
  Z.testbit (expBits d) i = negb (i <? 0) && ((i <? 6) && Z.testbit d (i + 20)).
Proof.
  destruct (Z.ltb_spec i 0).
  - apply Z.testbit_neg_r. assumption.
  - apply expBits_spec. assumption.
Qed.

Lemma contBits_bit (d : Dec32) (i : Z) :
  Z.testbit (contBits d) i = negb (i <? 0) && ((i <? 20) && Z.testbit d i).
Proof.
  destruct (Z.ltb_spec i 0).
  - apply Z.testbit_neg_r. assumption.
  - apply contBits_spec. assumption.
Qed.

Lemma raw_normal_eq (d : Dec32) :
  Z.testbit d 29 && Z.testbit d 30 = false ->
  rawCoeff d =
    Z.lor (Z.shiftl (Z.land (combBits d) (Z.ones 3)) 20 mod 2 ^ 32) (contBits d) /\
  rawExp d =
    Z.lor (Z.land (Z.shiftl (combBits d) 3 mod 2 ^ 32) (Z.shiftl (Z.ones 2) 6))
      (expBits d).
Proof.
  intros Hb. unfold rawCoeff, rawExp. rewrite large_test_comb, Hb.
  split; reflexivity.
Qed.

Lemma raw_large_eq (d : Dec32) :
  Z.testbit d 29 && Z.testbit d 30 = true ->
  rawCoeff d =
    Z.lor (Z.lor (Z.shiftl (Z.land (combBits d) (Z.ones 1)) 20 mod 2 ^ 32)
             (Z.shiftl (Z.ones 1) 23))
      (contBits d) /\
  rawExp d =
    Z.lor (Z.land (Z.shiftl (combBits d) 5 mod 2 ^ 32) (Z.shiftl (Z.ones 2) 6))
      (expBits d).
Proof.
  intros Hb. unfold rawCoeff, rawExp. rewrite large_test_comb, Hb.
  split; reflexivity.
Qed.

(** The same, through the three field accessors. *)
Ltac push_fields :=
  repeat first
    [ rewrite combBits_bit | rewrite expBits_bit | rewrite contBits_bit
    | rewrite Z.lor_spec | rewrite Z.land_spec | rewrite Z.ldiff_spec
    | rewrite Z.shiftl_spec' | rewrite Z.shiftr_spec'
    | rewrite Z.testbit_mod_pow2 by lia
    | rewrite Z.testbit_ones_nonneg' by lia ].

Ltac same_index i :=
  repeat match goal with
         | |- context [Z.testbit ?a ?j] =>
             lazymatch j with
             | i => fail
             | _ => replace j with i by lia
             end
         end.

(** An exponent byte whose two top bits are not both set. *)
Lemma exp_top_bits (e : Z) :
  is_int8 e -> e < -64 \/ 0 <= e -> Z.testbit e 6 && Z.testbit e 7 = false.
Proof.
  unfold is_int8. intros He [Hlow | Hnonneg].
  - assert (H6 : Z.testbit e 6 = false).
    { apply Z.testbit_false; [lia |].
      assert (Hq : e / 2 ^ 6 = -2)
        by (symmetry; apply Z.div_unique with (r := e + 128); lia).
      rewrite Hq. reflexivity. }
    rewrite H6. reflexivity.
  - rewrite (bound_bits_above 7 e 7) by lia. apply andb_false_r.
Qed.

Lemma raw_packed_normal (c e : Z) :
  0 <= c < 2 ^ 23 -> is_int8 e -> e < -64 \/ 0 <= e ->
  rawCoeff (packed c e) = c /\ rawExp (packed c e) = uint8 e.
Proof.
  intros Hc He Hexp.
  assert (Hb : Z.testbit (packed c e) 29 && Z.testbit (packed c e) 30 = false).
  { rewrite !packed_normal_bits by lia. apply exp_top_bits; assumption. }
  destruct (raw_normal_eq _ Hb) as [-> ->].
  split; apply Z.bits_inj'; intros i Hi.
  - assert (Hcase : i < 20 \/ 20 <= i < 23 \/ 23 <= i) by lia.
    destruct Hcase as [H | [H | H]].
    + push_fields; decide_ltbs; cbn [andb orb negb].
      rewrite ?packed_normal_bits by lia. decide_ltbs. same_index i. btauto.
    + push_fields; decide_ltbs; cbn [andb orb negb].
      rewrite ?packed_normal_bits by lia. decide_ltbs. same_index i. btauto.
    + rewrite (bound_bits_above 23 c i) by lia.
      push_fields; decide_ltbs; cbn [andb orb negb]. btauto.
  - unfold uint8, unsigned.
    assert (Hcase : i < 6 \/ 6 <= i < 8 \/ 8 <= i) by lia.
    destruct Hcase as [H | [H | H]].
    + push_fields; decide_ltbs; cbn [andb orb negb].
      rewrite ?packed_normal_bits by lia. decide_ltbs. same_index i. btauto.
    + push_fields; decide_ltbs; cbn [andb orb negb].
      rewrite ?packed_normal_bits by lia. decide_ltbs. same_index i. btauto.
    + push_fields; decide_ltbs; cbn [andb orb negb]. btauto.
Qed.

(** The bits 21 to 23 of a large-form coefficient. *)
Lemma large_coeff_bits (c : Z) :
  2 ^ 23 <= c <= maxCoeff ->
  Z.testbit c 21 = false /\ Z.testbit c 22 = false /\ Z.testbit c 23 = true.
Proof.
  unfold maxCoeff. intros Hc.
  assert (H21 : c / 2 ^ 21 = 4)
    by (symmetry; apply Z.div_unique with (r := c - 2 ^ 23); lia).
  assert (H22 : c / 2 ^ 22 = 2)
    by (symmetry; apply Z.div_unique with (r := c - 2 ^ 23); lia).
  assert (H23 : c / 2 ^ 23 = 1)
    by (symmetry; apply Z.div_unique with (r := c - 2 ^ 23); lia).
  repeat split.
  - apply Z.testbit_false; [lia |]. rewrite H21. reflexivity.
  - apply Z.testbit_false; [lia |]. rewrite H22. reflexivity.
  - apply Z.testbit_true; [lia |]. rewrite H23. reflexivity.
Qed.

Lemma raw_packed_large (c e : Z) :
  2 ^ 23 <= c <= maxCoeff ->
  rawCoeff (packed c e) = c /\ rawExp (packed c e) = uint8 e.
Proof.
  intros Hc.
  destruct (large_coeff_bits c Hc) as (H21 & H22 & H23).
  assert (Hb : Z.testbit (packed c e) 29 && Z.testbit (packed c e) 30 = true).
  { rewrite !packed_large_bits by (assumption || lia). reflexivity. }
  destruct (raw_large_eq _ Hb) as [-> ->].
  split; apply Z.bits_inj'; intros i Hi.
  - assert (Hcase : i < 20 \/ i = 20 \/ i = 21 \/ i = 22 \/ i = 23 \/ 24 <= i)
      by lia.
    destruct Hcase as [H | [H | [-> | [-> | [-> | H]]]]].
    + push_fields; decide_ltbs; cbn [andb orb negb].
      rewrite ?packed_large_bits by (assumption || lia).
      decide_ltbs. same_index i. btauto.
    + push_fields; decide_ltbs; cbn [andb orb negb].
      rewrite ?packed_large_bits by (assumption || lia).
      decide_ltbs. same_index i. btauto.
    + rewrite H21. push_fields; decide_ltbs; cbn [andb orb negb]. btauto.
    + rewrite H22. push_fields; decide_ltbs; cbn [andb orb negb]. btauto.
    + rewrite H23. push_fields; decide_ltbs; cbn [andb orb negb]. btauto.
    + rewrite (bound_bits_above 24 c i) by (unfold maxCoeff in Hc; lia).
      push_fields; decide_ltbs; cbn [andb orb negb]. btauto.
  - unfold uint8, unsigned.
    assert (Hcase : i < 6 \/ 6 <= i < 8 \/ 8 <= i) by lia.
    destruct Hcase as [H | [H | H]].
    + push_fields; decide_ltbs; cbn [andb orb negb].
      rewrite ?packed_large_bits by (assumption || lia).
      decide_ltbs. same_index i. btauto.
    + push_fields; decide_ltbs; cbn [andb orb negb].
      rewrite ?packed_large_bits by (assumption || lia).
      decide_ltbs. same_index i. btauto.
    + push_fields; decide_ltbs; cbn [andb orb negb]. btauto.
Qed.

(** ** Round trip *)

Lemma int8_uint8 (e : Z) : is_int8 e -> int8 (uint8 e) = e.
Proof.
  unfold is_int8, int8, uint8, signed, unsigned. intros He.
  change (8 - 1) with 7.
  destruct (Z_lt_le_dec e 0) as [Hneg | Hpos].
  - assert (Hm : e mod 2 ^ 8 = e + 2 ^ 8)
      by (symmetry; apply Z.mod_unique with (q := -1); lia).
    rewrite Hm.
    assert (Hm2 : (e + 2 ^ 8 + 2 ^ 7) mod 2 ^ 8 = e + 2 ^ 7)
      by (symmetry; apply Z.mod_unique with (q := 1); lia).
    rewrite Hm2. lia.
  - rewrite (Z.mod_small e) by lia. rewrite Z.mod_small; lia.
Qed.

(** In the colliding zone the raw coefficient read back has bit 23 set. *)
Lemma raw_packed_collision (c e : Z) :
  0 <= c < 2 ^ 23 -> -64 <= e <= -1 ->
  2 ^ 23 <= rawCoeff (packed c e).
Proof.
  intros Hc He.
  assert (H6 : Z.testbit e 6 = true).
  { apply Z.testbit_true; [lia |].
    assert (Hq : e / 2 ^ 6 = -1)
      by (symmetry; apply Z.div_unique with (r := e + 64); lia).
    rewrite Hq. reflexivity. }
  assert (H7 : Z.testbit e 7 = true).
  { apply Z.testbit_true; [lia |].
    assert (Hq : e / 2 ^ 7 = -1)
      by (symmetry; apply Z.div_unique with (r := e + 128); lia).
    rewrite Hq. reflexivity. }
  assert (Hb : Z.testbit (packed c e) 29 && Z.testbit (packed c e) 30 = true).
  { rewrite !packed_normal_bits by lia.
    change (Z.testbit e 6 && Z.testbit e 7 = true). rewrite H6, H7. reflexivity. }
  assert (H23 : Z.testbit (rawCoeff (packed c e)) 23 = true).
  { destruct (raw_large_eq _ Hb) as [-> _].
    rewrite !Z.lor_spec.
    replace (Z.testbit (Z.shiftl (Z.ones 1) 23) 23) with true by reflexivity.
    rewrite orb_true_r. reflexivity. }
  pose proof (rawCoeff_range (packed c e)) as Hr.
  destruct (Z_lt_le_dec (rawCoeff (packed c e)) (2 ^ 23)) as [Hlt | Hge];
    [| assumption].
  rewrite (bound_bits_above 23 _ 23) in H23 by lia. discriminate H23.
Qed.

(** X1. Where the round trip holds: for an in-range input in the large form,
    or in the normal form with an exponent outside [[-64, -1]], [Decode]
    of the encoded word returns the input. *)
Lemma EncodeDec32_Decode_round_trip (c e : Z) :
  Z.abs c <= maxCoeff -> minExp <= e <= maxExp ->
  2 ^ 23 <= Z.abs c \/ e < -64 \/ 0 <= e ->
  exists w, EncodeDec32 c e = (w, true) /\ Decode w = (c, e, true).
Proof.
  intros Hc He Hzone.
  assert (He8 : is_int8 e) by (unfold_limits; lia).
  assert (Hraw : rawCoeff (packed (Z.abs c) e) = Z.abs c /\
                 rawExp (packed (Z.abs c) e) = uint8 e).
  { destruct (Z_lt_le_dec (Z.abs c) (2 ^ 23)) as [Hsmall | Hbig].
    - apply raw_packed_normal; [lia | assumption | lia].
    - apply raw_packed_large. lia. }
  destruct Hraw as [Hrc Hre].
  assert (Hw : 0 <= packed (Z.abs c) e < 2 ^ 31) by (apply packed_range; lia).
  destruct (Z_lt_le_dec c 0) as [Hneg | Hpos].
  - exists (Z.lor signMask (packed (Z.abs c) e)). split.
    + replace c with (- Z.abs c) at 1 by lia.
      apply EncodeDec32_neg; [lia | assumption].
    + rewrite Decode_spec, testbit_31_lor_signMask.
      rewrite rawCoeff_lor_signMask, rawExp_lor_signMask, Hrc, Hre.
      rewrite int8_uint8 by assumption. f_equal. f_equal. lia.
  - exists (packed (Z.abs c) e). split.
    + replace c with (Z.abs c) at 1 by lia.
      apply EncodeDec32_nonneg; [lia | assumption].
    + rewrite Decode_spec.
      rewrite (bound_bits_above 31 _ 31) by (assumption || lia).
      rewrite Hrc, Hre, int8_uint8 by assumption. f_equal. f_equal. lia.
Qed.

(** X2. Where it does not: a normal-form input with an exponent of
    [[-64, -1]] encodes with success, and the word decodes to a coefficient
    of magnitude at least [2^23], never to the input. *)
Lemma EncodeDec32_Decode_collision (c e : Z) :
  Z.abs c < 2 ^ 23 -> -64 <= e <= -1 ->
  exists w c' e',
    EncodeDec32 c e = (w, true) /\ Decode w = (c', e', true) /\
    2 ^ 23 <= Z.abs c'.
Proof.
  intros Hc He.
  pose proof (raw_packed_collision (Z.abs c) e ltac:(lia) He) as Hraw.
  assert (Hw : 0 <= packed (Z.abs c) e < 2 ^ 31)
    by (apply packed_range; unfold maxCoeff; lia).
  destruct (Z_lt_le_dec c 0) as [Hneg | Hpos].
  - exists (Z.lor signMask (packed (Z.abs c) e)),
      (- rawCoeff (packed (Z.abs c) e)), (int8 (rawExp (packed (Z.abs c) e))).
    repeat split.
    + replace c with (- Z.abs c) at 1 by lia.
      apply EncodeDec32_neg; unfold_limits; lia.
    + rewrite Decode_spec, testbit_31_lor_signMask.
      rewrite rawCoeff_lor_signMask, rawExp_lor_signMask. reflexivity.
    + lia.
  - exists (packed (Z.abs c) e),
      (rawCoeff (packed (Z.abs c) e)), (int8 (rawExp (packed (Z.abs c) e))).
    repeat split.
    + replace c with (Z.abs c) at 1 by lia.
      apply EncodeDec32_nonneg; unfold_limits; lia.
    + rewrite Decode_spec.
      rewrite (bound_bits_above 31 _ 31) by (assumption || lia). reflexivity.
    + lia.
Qed.

(** C1 (the code departs from it). The exponent byte is stored unbiased, so
    an exponent of [[-64, -1]] puts [11] in the two top combination bits of
    a normal-form word, which [Decode] reads as the large form:
    [(2, -1)] encodes to [0x63f00002], which decodes to [(8388610, 63)]. *)
Theorem EncodeDec32_Decode_2_minus_1 :
  0 <= Z.abs 2 <= maxCoeff /\ minExp <= -1 <= maxExp /\
  EncodeDec32 2 (-1) = (0x63f00002, true) /\
  Decode 0x63f00002 = (8388610, 63, true).
Proof.
  repeat split; vm_compute; congruence.
Qed.

(** ** Conversion to float32 *)

(** With a zero exponent [Float32] is the conversion of the coefficient. *)
Lemma Float32_exp_zero (d : Dec32) (coeff : Z) (ok : bool) :
  Decode d = (coeff, 0, ok) -> Float32 d = F32.of_int coeff.
Proof.
  intros Hdec. unfold Float32. rewrite Hdec.
  assert (Hok : ok = true) by (rewrite Decode_spec in Hdec; congruence).
  rewrite Hok. reflexivity.
Qed.

(** C3 (the code departs from it). [Float32] multiplies the coefficient by
    [10 * exp], not by [10 ^ exp]: the word [0x00200001] decodes to
    [(1, 2)], the value [1 * 10^2 = 100] is a [float32], and [Float32]
    answers [20]. *)
Theorem Float32_ten_times_exp :
  EncodeDec32 1 2 = (0x00200001, true) /\
  Decode 0x00200001 = (1, 2, true) /\
  Float32 0x00200001 = F32.of_int 20 /\
  F32.of_int 20 = S754_finite false 10485760 (-19) /\
  F32.of_int (1 * 10 ^ 2) = S754_finite false 13107200 (-17) /\
  Float32 0x00200001 <> F32.of_int (1 * 10 ^ 2).
Proof.
  repeat split; vm_compute; congruence.
Qed.

(** ** Colliding inputs *)

(** Adding a multiple of [2^n] leaves the bits below [n] alone. *)
Lemma testbit_add_pow2_low (a n i : Z) :
  0 <= i < n -> Z.testbit (a + 2 ^ n) i = Z.testbit a i.
Proof.
  intros Hi.
  rewrite <- (Z.mod_pow2_bits_low (a + 2 ^ n) n i) by lia.
  rewrite <- (Z.mod_pow2_bits_low a n i) by lia.
  replace (a + 2 ^ n) with (a + 1 * 2 ^ n) by lia.
  rewrite Z_mod_plus_full. reflexivity.
Qed.

(** An exponent of [[-64, -1]] has both top bits of its byte set. *)
Lemma exp_tag_bits (e : Z) :
  -64 <= e <= -1 -> Z.testbit e 6 = true /\ Z.testbit e 7 = true.
Proof.
  intros He. split.
  - apply Z.testbit_true; [lia |].
    assert (Hq : e / 2 ^ 6 = -1)
      by (symmetry; apply Z.div_unique with (r := e + 64); lia).
    rewrite Hq. reflexivity.
  - apply Z.testbit_true; [lia |].
    assert (Hq : e / 2 ^ 7 = -1)
      by (symmetry; apply Z.div_unique with (r := e + 128); lia).
    rewrite Hq. reflexivity.
Qed.

Lemma packed_collision (c e : Z) :
  0 <= c < 2 ^ 20 -> -64 <= e <= -1 ->
  packed c e = packed (c + 2 ^ 23) (e + 64).
Proof.
  intros Hc He.
  destruct (exp_tag_bits e He) as [H6 H7].
  assert (H23 : Z.testbit (c + 2 ^ 23) 23 = true).
  { apply Z.testbit_true; [lia |].
    assert (Hq : (c + 2 ^ 23) / 2 ^ 23 = 1)
      by (symmetry; apply Z.div_unique with (r := c); lia).
    rewrite Hq. reflexivity. }
  apply Z.bits_inj'. intros i Hi.
  rewrite packed_normal_bits by lia.
  rewrite packed_large_bits by assumption.
  assert (Hcase : i < 20 \/ 20 <= i < 26 \/ i = 26 \/ 27 <= i < 29 \/
                  i = 29 \/ i = 30 \/ 31 <= i) by lia.
  destruct Hcase as [H | [H | [-> | [H | [-> | [-> | H]]]]]]; decide_ltbs.
  - symmetry. apply testbit_add_pow2_low. lia.
  - change 64 with (2 ^ 6). symmetry. apply testbit_add_pow2_low. lia.
  - rewrite testbit_add_pow2_low by lia.
    reflexivity.
  - rewrite (bound_bits_above 20 c (i - 6)) by lia.
    symmetry. apply (bound_bits_above 6); lia.
  - exact H6.
  - exact H7.
  - reflexivity.
Qed.

(** X4. A normal-form coefficient below [2^20] with an exponent of
    [[-64, -1]] encodes to the very word of the large-form input
    [(c + 8388608, e + 64)], and [Decode] reads that word as the latter. *)
Theorem EncodeDec32_collision_pairs (c e : Z) :
  0 <= c < 2 ^ 20 -> -64 <= e <= -1 ->
  exists w,
    EncodeDec32 c e = (w, true) /\
    EncodeDec32 (c + 8388608) (e + 64) = (w, true) /\
    Decode w = (c + 8388608, e + 64, true).
Proof.
  intros Hc He. exists (packed c e).
  assert (Hbig : 2 ^ 23 <= c + 2 ^ 23 <= maxCoeff) by (unfold maxCoeff; lia).
  assert (He' : minExp <= e + 64 <= maxExp) by (unfold_limits; lia).
  change 8388608 with (2 ^ 23).
  repeat split.
  - apply EncodeDec32_nonneg; unfold_limits; lia.
  - rewrite packed_collision by assumption.
    apply EncodeDec32_nonneg; [lia | assumption].
  - rewrite packed_collision by assumption.
    rewrite Decode_spec.
    rewrite (bound_bits_above 31 _ 31)
      by (try apply packed_range; lia).
    destruct (raw_packed_large (c + 2 ^ 23) (e + 64) Hbig) as [-> ->].
    rewrite int8_uint8 by (unfold is_int8; lia). reflexivity.
Qed.

Lemma EncodeDec32_collision_pairs_witness :
  0 <= 2 < 2 ^ 20 /\ -64 <= -1 <= -1 /\
  exists w,
    EncodeDec32 2 (-1) = (w, true) /\
    EncodeDec32 (2 + 8388608) (-1 + 64) = (w, true) /\
    Decode w = (2 + 8388608, -1 + 64, true).
Proof.
  split; [lia | split; [lia | apply (EncodeDec32_collision_pairs 2 (-1)); lia]].
Defined.

(** ** Special values among the encoder's words *)

(** [IsInf] or [IsNaN] holds exactly when bits 30 to 27 are all set. *)
Lemma special_top_bits (d : Dec32) :
  IsInf d || IsNaN d = true <->
  Z.testbit d 30 = true /\ Z.testbit d 29 = true /\
  Z.testbit d 28 = true /\ Z.testbit d 27 = true.
Proof.
  pose proof (combBits_range d) as Hr.
  assert (H4 : Z.testbit (combBits d) 4 = Z.testbit d 30)
    by (rewrite combBits_spec by lia; reflexivity).
  assert (H3 : Z.testbit (combBits d) 3 = Z.testbit d 29)
    by (rewrite combBits_spec by lia; reflexivity).
  assert (H2 : Z.testbit (combBits d) 2 = Z.testbit d 28)
    by (rewrite combBits_spec by lia; reflexivity).
  assert (H1 : Z.testbit (combBits d) 1 = Z.testbit d 27)
    by (rewrite combBits_spec by lia; reflexivity).
  rewrite <- H4, <- H3, <- H2, <- H1.
  unfold IsInf, IsNaN. rewrite orb_true_iff, !Z.eqb_eq.
  generalize dependent (combBits d). intros x Hr _ _ _ _.
  split.
  - intros [-> | ->]; repeat split; reflexivity.
  - intros (B4 & B3 & B2 & B1).
    assert (Hall : forall v, Z.testbit x 0 = Z.testbit v 0 ->
                     Z.testbit v 1 = true -> Z.testbit v 2 = true ->
                     Z.testbit v 3 = true -> Z.testbit v 4 = true ->
                     0 <= v < 2 ^ 5 -> x = v).
    { intros v V0 V1 V2 V3 V4 Hv. apply Z.bits_inj'. intros i Hi.
      assert (Hcase : i = 0 \/ i = 1 \/ i = 2 \/ i = 3 \/ i = 4 \/ 5 <= i) by lia.
      destruct Hcase as [-> | [-> | [-> | [-> | [-> | H]]]]]; try congruence.
      rewrite (bound_bits_above 5 x i), (bound_bits_above 5 v i) by lia.
      reflexivity. }
    destruct (Z.testbit x 0) eqn:B0.
    + right. apply Hall; (reflexivity || lia).
    + left. apply Hall; (reflexivity || lia).
Qed.

(** The bits 21 and 22 of a normal-form coefficient. *)
Lemma coeff_bits_21_22 (m : Z) :
  0 <= m < 2 ^ 23 ->
  (Z.testbit m 21 = true /\ Z.testbit m 22 = true <-> 6291456 <= m).
Proof.
  intros Hm.
  rewrite (Z.testbit_true m 21), (Z.testbit_true m 22) by lia.
  change (2 ^ 21) with 2097152. change (2 ^ 22) with 4194304.
  change (2 ^ 23) with 8388608 in Hm.
  split; intros H; [destruct H |]; Z.div_mod_to_equations; lia.
Qed.

Lemma exp_tag_bits_iff (e : Z) :
  is_int8 e ->
  (Z.testbit e 7 = true /\ Z.testbit e 6 = true <-> -64 <= e <= -1).
Proof.
  intros He. split.
  - intros [H7 H6].
    destruct (Z_lt_le_dec e (-64)) as [Hlow | Hge].
    + pose proof (exp_top_bits e He (or_introl Hlow)) as Hb.
      rewrite H6, H7 in Hb. discriminate Hb.
    + destruct (Z_lt_le_dec e 0) as [Hneg | Hpos]; [lia |].
      pose proof (exp_top_bits e He (or_intror Hpos)) as Hb.
      rewrite H6, H7 in Hb. discriminate Hb.
  - intros Hz. destruct (exp_tag_bits e Hz). split; assumption.
Qed.

Lemma packed_special (m e : Z) :
  0 <= m <= maxCoeff -> minExp <= e <= maxExp ->
  (IsInf (packed m e) || IsNaN (packed m e) = true <->
   -64 <= e <= -1 /\ 6291456 <= m).
Proof.
  intros Hm He.
  assert (He8 : is_int8 e) by (unfold_limits; lia).
  rewrite special_top_bits.
  destruct (Z_lt_le_dec m (2 ^ 23)) as [Hsmall | Hbig].
  - rewrite !packed_normal_bits by lia.
    change (Z.testbit e 7 = true /\ Z.testbit e 6 = true /\
            Z.testbit m 22 = true /\ Z.testbit m 21 = true <->
            -64 <= e <= -1 /\ 6291456 <= m).
    rewrite <- exp_tag_bits_iff by assumption.
    rewrite <- (coeff_bits_21_22 m) by lia. tauto.
  - assert (H23 : Z.testbit m 23 = true) by (apply large_coeff_bits; lia).
    rewrite !packed_large_bits by (assumption || lia).
    change (true = true /\ true = true /\
            Z.testbit e 7 = true /\ Z.testbit e 6 = true <->
            -64 <= e <= -1 /\ 6291456 <= m).
    rewrite <- exp_tag_bits_iff by assumption. intuition lia.
Qed.

(** The word returned on an in-range input. *)
Lemma encoded_word (c e : Z) :
  Z.abs c <= maxCoeff -> minExp <= e <= maxExp ->
  fst (EncodeDec32 c e) =
  if c <? 0 then Z.lor signMask (packed (Z.abs c) e) else packed (Z.abs c) e.
Proof.
  intros Hc He.
  destruct (Z.ltb_spec c 0) as [Hneg | Hpos].
  - replace c with (- Z.abs c) at 1 by lia.
    rewrite EncodeDec32_neg by (assumption || lia). reflexivity.
  - replace c with (Z.abs c) at 1 by lia.
    rewrite EncodeDec32_nonneg by (assumption || lia). reflexivity.
Qed.

(** X5. Among the in-range inputs, [EncodeDec32] returns a word that
    [IsInf] or [IsNaN] accepts exactly when the exponent lies in [[-64, -1]]
    and the magnitude of the coefficient is at least [6291456]. *)
Theorem EncodeDec32_special_iff (c e : Z) :
  Z.abs c <= maxCoeff -> minExp <= e <= maxExp ->
  (IsInf (fst (EncodeDec32 c e)) || IsNaN (fst (EncodeDec32 c e)) = true <->
   -64 <= e <= -1 /\ 6291456 <= Z.abs c).
Proof.
  intros Hc He.
  rewrite <- (packed_special (Z.abs c) e) by (assumption || lia).
  rewrite encoded_word by assumption.
  destruct (c <? 0); [| reflexivity].
  unfold IsInf, IsNaN. rewrite combBits_lor_signMask. reflexivity.
Qed.
Lemma EncodeDec32_special_iff_witness :
  Z.abs 8388608 <= maxCoeff /\ minExp <= -1 <= maxExp /\
  (IsInf (fst (EncodeDec32 8388608 (-1))) ||
   IsNaN (fst (EncodeDec32 8388608 (-1))) = true <->
   -64 <= -1 <= -1 /\ 6291456 <= Z.abs 8388608).
Proof.
  split; [unfold maxCoeff; lia | split; [unfold_limits; lia |]].
  apply (EncodeDec32_special_iff 8388608 (-1)); unfold_limits; lia.
Defined.

(** ** The failure word *)

(** Every failing return of [EncodeDec32] carries [failDec32]. *)
Lemma EncodeDec32_failure_word (c e : Z) :
  snd (EncodeDec32 c e) = false -> fst (EncodeDec32 c e) = failDec32.
Proof.
  unfold EncodeDec32.
  destruct (c <? 0); cbv beta iota zeta;
    match goal with
    | |- context [if ?a >? maxCoeff then _ else _] => destruct (a >? maxCoeff)
    end;
    try (intros _; reflexivity);
    destruct ((e <? minExp) || (e >? maxExp));
    try (intros _; reflexivity);
    cbv beta iota zeta;
    match goal with
    | |- context [if ?t =? coeffMaxBits then _ else _] =>
        destruct (t =? coeffMaxBits)
    end;
    simpl snd; intros Hf; discriminate Hf.
Qed.

(** X6. Whenever [EncodeDec32] fails, the word it returns is the all-ones
    word, which the classification reads as a negative NaN that is valid and
    not zero, and which [Decode] accepts. *)
Theorem EncodeDec32_failure_classified (c e : Z) :
  snd (EncodeDec32 c e) = false ->
  fst (EncodeDec32 c e) = 0xffffffff /\
  IsNaN (fst (EncodeDec32 c e)) = true /\
  IsInf (fst (EncodeDec32 c e)) = false /\
  Valid (fst (EncodeDec32 c e)) = true /\
  Zero (fst (EncodeDec32 c e)) = false /\
  Sign (fst (EncodeDec32 c e)) = -1 /\
  Decode (fst (EncodeDec32 c e)) = (-10485759, -1, true).
Proof.
  intros Hf. rewrite (EncodeDec32_failure_word c e Hf).
  repeat split; vm_compute; reflexivity.
Qed.

Lemma EncodeDec32_failure_classified_witness :
  snd (EncodeDec32 10000000 0) = false /\
  fst (EncodeDec32 10000000 0) = 0xffffffff /\
  IsNaN (fst (EncodeDec32 10000000 0)) = true /\
  IsInf (fst (EncodeDec32 10000000 0)) = false /\
  Valid (fst (EncodeDec32 10000000 0)) = true /\
  Zero (fst (EncodeDec32 10000000 0)) = false /\
  Sign (fst (EncodeDec32 10000000 0)) = -1 /\
  Decode (fst (EncodeDec32 10000000 0)) = (-10485759, -1, true).
Proof.
  split; [reflexivity |].
  apply (EncodeDec32_failure_classified 10000000 0). reflexivity.
Defined.

(** ** Sign *)

Lemma Sign_spec (d : Dec32) :
  Sign d = if Z.testbit d 31 then -1 else 1.
Proof. unfold Sign. rewrite sign_test_spec. reflexivity. Qed.

(** X7. [Sign] is the sign that [Decode] gives the coefficient: the decoded
    coefficient is [Sign] times its magnitude, so it is never positive when
    [Sign] is [-1] and never negative when [Sign] is [1]. *)
Theorem Sign_Decode (d : Dec32) (coeff expn : Z) (ok : bool) :
  Decode d = (coeff, expn, ok) ->
  (Sign d = -1 \/ Sign d = 1) /\ coeff = Sign d * Z.abs coeff.
Proof.
  rewrite Decode_spec, Sign_spec. intros Heq.
  pose proof (rawCoeff_range d) as Hr.
  assert (Hc : coeff = if Z.testbit d 31 then - rawCoeff d else rawCoeff d)
    by congruence.
  rewrite Hc. destruct (Z.testbit d 31); split; auto; lia.
Qed.

Lemma Sign_Decode_witness :
  Decode 0x80000001 = (-1, 0, true) /\
  (Sign 0x80000001 = -1 \/ Sign 0x80000001 = 1) /\
  -1 = Sign 0x80000001 * Z.abs (-1).
Proof.
  split; [reflexivity |].
  apply (Sign_Decode 0x80000001 (-1) 0 true). reflexivity.
Defined.

(** X8. On an in-range input [EncodeDec32] sets the sign bit exactly for a
    negative coefficient: zero is always encoded with [Sign] [1]. *)
Theorem Sign_EncodeDec32 (c e : Z) :
  Z.abs c <= maxCoeff -> minExp <= e <= maxExp ->
  Sign (fst (EncodeDec32 c e)) = if c <? 0 then -1 else 1.
Proof.
  intros Hc He. rewrite encoded_word, Sign_spec by assumption.
  destruct (c <? 0).
  - rewrite testbit_31_lor_signMask. reflexivity.
  - rewrite (bound_bits_above 31 _ 31); [reflexivity | | lia].
    apply packed_range. lia.
Qed.

Lemma Sign_EncodeDec32_witness :
  Z.abs (-2) <= maxCoeff /\ minExp <= 96 <= maxExp /\
  Sign (fst (EncodeDec32 (-2) 96)) = if -2 <? 0 then -1 else 1.
Proof.
  split; [unfold maxCoeff; lia | split; [unfold_limits; lia |]].
  apply (Sign_EncodeDec32 (-2) 96); unfold_limits; lia.
Defined.

(** ** Flipping the sign bit *)

Lemma fields_lxor_signMask (d : Dec32) :
  combBits (Z.lxor d signMask) = combBits d /\
  expBits (Z.lxor d signMask) = expBits d /\
  contBits (Z.lxor d signMask) = contBits d /\
  Z.testbit (Z.lxor d signMask) 31 = negb (Z.testbit d 31).
Proof.
  repeat split.
  - apply Z.bits_inj'. intros i Hi.
    rewrite !combBits_spec, Z.lxor_spec, signMask_spec by assumption.
    destruct (Z.ltb_spec i 5); [| reflexivity].
    destruct (Z.eqb_spec (i + 26) 31); [lia |]. rewrite xorb_false_r. reflexivity.
  - apply Z.bits_inj'. intros i Hi.
    rewrite !expBits_spec, Z.lxor_spec, signMask_spec by assumption.
    destruct (Z.ltb_spec i 6); [| reflexivity].
    destruct (Z.eqb_spec (i + 20) 31); [lia |]. rewrite xorb_false_r. reflexivity.
  - apply Z.bits_inj'. intros i Hi.
    rewrite !contBits_spec, Z.lxor_spec, signMask_spec by assumption.
    destruct (Z.ltb_spec i 20); [| reflexivity].
    destruct (Z.eqb_spec i 31); [lia |]. rewrite xorb_false_r. reflexivity.
  - rewrite Z.lxor_spec, signMask_spec. simpl. apply xorb_true_r.
Qed.

(** X9. Flipping bit 31 of any word negates the decoded coefficient, keeps
    the exponent and the success flag, reverses [Sign], and leaves [IsInf]
    and [IsNaN] as they were. *)
Theorem Decode_flip_sign (d : Dec32) (coeff expn : Z) (ok : bool) :
  Decode d = (coeff, expn, ok) ->
  Decode (Z.lxor d signMask) = (- coeff, expn, ok) /\
  Sign (Z.lxor d signMask) = - Sign d /\
  IsInf (Z.lxor d signMask) = IsInf d /\
  IsNaN (Z.lxor d signMask) = IsNaN d.
Proof.
  destruct (fields_lxor_signMask d) as (Hcomb & Hexp & Hcont & Hbit).
  assert (Hrc : rawCoeff (Z.lxor d signMask) = rawCoeff d)
    by (unfold rawCoeff; rewrite Hcomb, Hcont; reflexivity).
  assert (Hre : rawExp (Z.lxor d signMask) = rawExp d)
    by (unfold rawExp; rewrite Hcomb, Hexp; reflexivity).
  rewrite !Decode_spec, !Sign_spec, Hbit, Hrc, Hre.
  unfold IsInf, IsNaN. rewrite Hcomb.
  intros Heq.
  assert (Hc : coeff = if Z.testbit d 31 then - rawCoeff d else rawCoeff d)
    by congruence.
  assert (He : expn = int8 (rawExp d)) by congruence.
  assert (Hok : ok = true) by congruence.
  rewrite Hc, He, Hok.
  destruct (Z.testbit d 31); simpl negb; repeat split;
    rewrite ?Z.opp_involutive; reflexivity.
Qed.

Lemma Decode_flip_sign_witness :
  Decode 0x6408967f = (9999999, 0, true) /\
  Decode (Z.lxor 0x6408967f signMask) = (- 9999999, 0, true) /\
  Sign (Z.lxor 0x6408967f signMask) = - Sign 0x6408967f /\
  IsInf (Z.lxor 0x6408967f signMask) = IsInf 0x6408967f /\
  IsNaN (Z.lxor 0x6408967f signMask) = IsNaN 0x6408967f.
Proof.
  split; [reflexivity |].
  apply (Decode_flip_sign 0x6408967f 9999999 0 true). reflexivity.
Defined.

(** ** The four fields *)

(** X12. The sign bit and the three fields partition a 32-bit word: each
    field fits its width, and the word is the union of the sign bit and the
    fields shifted back to their offsets. *)
Theorem fields_partition (d : Dec32) :
  0 <= d < 2 ^ 32 ->
  0 <= combBits d < 2 ^ 5 /\
  0 <= expBits d < 2 ^ 6 /\
  0 <= contBits d < 2 ^ 20 /\
  d = Z.lor (Z.lor (Z.lor (Z.land d signMask)
                      (Z.shiftl (combBits d) combOffset))
               (Z.shiftl (expBits d) expOffset))
        (contBits d).
Proof.
  intros Hd.
  split; [apply combBits_range |].
  split; [apply expBits_range |].
  split; [apply contBits_range |].
  unfold combOffset, expOffset.
  apply Z.bits_inj'. intros i Hi.
  rewrite !Z.lor_spec, Z.land_spec, signMask_spec, !Z.shiftl_spec by assumption.
  assert (Hcase : i < 20 \/ 20 <= i < 26 \/ 26 <= i < 31 \/ i = 31 \/ 32 <= i)
    by lia.
  destruct Hcase as [H | [H | [H | [-> | H]]]].
  - rewrite (Z.testbit_neg_r _ (i - 26)), (Z.testbit_neg_r _ (i - 20)) by lia.
    rewrite contBits_spec by lia.
    destruct (Z.eqb_spec i 31); [lia |].
    destruct (Z.ltb_spec i 20); [| lia].
    rewrite andb_false_r. reflexivity.
  - rewrite (Z.testbit_neg_r _ (i - 26)) by lia.
    rewrite expBits_spec, contBits_spec by lia.
    destruct (Z.eqb_spec i 31); [lia |].
    destruct (Z.ltb_spec i 20); [lia |].
    destruct (Z.ltb_spec (i - 20) 6); [| lia].
    replace (i - 20 + 20) with i by lia.
    rewrite andb_false_r, orb_false_r. reflexivity.
  - rewrite combBits_spec, expBits_spec, contBits_spec by lia.
    destruct (Z.eqb_spec i 31); [lia |].
    destruct (Z.ltb_spec i 20); [lia |].
    destruct (Z.ltb_spec (i - 20) 6); [lia |].
    destruct (Z.ltb_spec (i - 26) 5); [| lia].
    replace (i - 26 + 26) with i by lia.
    rewrite andb_false_r, !orb_false_r. reflexivity.
  - rewrite combBits_spec, expBits_spec, contBits_spec by lia.
    simpl. rewrite andb_true_r, !orb_false_r. reflexivity.
  - rewrite combBits_spec, expBits_spec, contBits_spec by lia.
    rewrite (bound_bits_above 32 d i) by lia.
    destruct (Z.ltb_spec i 20); [lia |].
    destruct (Z.ltb_spec (i - 20) 6); [lia |].
    destruct (Z.ltb_spec (i - 26) 5); [lia |].
    reflexivity.
Qed.

Lemma fields_partition_witness :
  0 <= 0x6408967f < 2 ^ 32 /\
  0 <= combBits 0x6408967f < 2 ^ 5 /\
  0 <= expBits 0x6408967f < 2 ^ 6 /\
  0 <= contBits 0x6408967f < 2 ^ 20 /\
  0x6408967f =
    Z.lor (Z.lor (Z.lor (Z.land 0x6408967f signMask)
                    (Z.shiftl (combBits 0x6408967f) combOffset))
             (Z.shiftl (expBits 0x6408967f) expOffset))
      (contBits 0x6408967f).
Proof.
  split; [lia | apply (fields_partition 0x6408967f); lia].
Defined.

(** ** Bounds of the decoded values *)

(** The bits 20 to 23 of the coefficient read in the large form. *)
Lemma rawCoeff_large_bits (d : Dec32) :
  Z.testbit d 29 && Z.testbit d 30 = true ->
  Z.testbit (rawCoeff d) 20 = Z.testbit d 26 /\
  Z.testbit (rawCoeff d) 21 = false /\
  Z.testbit (rawCoeff d) 22 = false /\
  Z.testbit (rawCoeff d) 23 = true.
Proof.
  intros Hb. destruct (raw_large_eq _ Hb) as [-> _].
  repeat split; push_fields; decide_ltbs; cbn [andb orb negb];
    rewrite ?andb_true_r, ?andb_false_r, ?orb_false_r, ?orb_true_r;
    reflexivity.
Qed.

Lemma rawCoeff_normal_range (d : Dec32) :
  Z.testbit d 29 && Z.testbit d 30 = false -> 0 <= rawCoeff d < 2 ^ 23.
Proof.
  intros Hb. destruct (raw_normal_eq _ Hb) as [-> _].
  apply bits_above_bound; [lia |]. intros i Hi.
  push_fields; decide_ltbs; cbn [andb orb negb]. btauto.
Qed.

Lemma rawCoeff_upper (d : Dec32) : 0 <= rawCoeff d <= 10485759.
Proof.
  pose proof (rawCoeff_range d) as Hr.
  destruct (Z.testbit d 29 && Z.testbit d 30) eqn:Hb.
  - destruct (rawCoeff_large_bits d Hb) as (_ & H21 & H22 & _).
    apply Z.testbit_false in H21, H22; try lia.
    change (2 ^ 21) with 2097152 in H21. change (2 ^ 22) with 4194304 in H22.
    change (2 ^ 24) with 16777216 in Hr.
    Z.div_mod_to_equations. lia.
  - pose proof (rawCoeff_normal_range d Hb) as Hn.
    change (2 ^ 23) with 8388608 in Hn. lia.
Qed.

(** X10. [Decode] always succeeds with a coefficient of magnitude at most
    [10485759] (so the negation of the coefficient never wraps) and an
    exponent of [[-128, 127]]. *)
Theorem Decode_bounds (d : Dec32) (coeff expn : Z) (ok : bool) :
  Decode d = (coeff, expn, ok) ->
  ok = true /\ Z.abs coeff <= 10485759 /\ -128 <= expn <= 127.
Proof.
  rewrite Decode_spec. intros Heq.
  assert (Hc : coeff = if Z.testbit d 31 then - rawCoeff d else rawCoeff d)
    by congruence.
  assert (He : expn = int8 (rawExp d)) by congruence.
  assert (Hok : ok = true) by congruence.
  pose proof (rawCoeff_upper d) as Hr.
  pose proof (int8_range (rawExp d)) as Hi. unfold is_int8 in Hi.
  rewrite Hc, He.
  repeat split; try assumption; try lia.
  destruct (Z.testbit d 31); lia.
Qed.

Lemma Decode_bounds_witness :
  Decode 0xffffffff = (-10485759, -1, true) /\
  true = true /\ Z.abs (-10485759) <= 10485759 /\ -128 <= -1 <= 127.
Proof.
  split; [reflexivity |].
  apply (Decode_bounds 0xffffffff (-10485759) (-1) true). reflexivity.
Defined.

(** ** Words with the sign bit set *)

(** X15. On a word whose [Sign] is [-1] the test against [maxCoeff] never
    bites: [Valid] holds exactly when the exponent lies in [[-95, 96]],
    whatever the coefficient, and [Zero] holds exactly when the coefficient
    is zero. *)
Theorem negative_words (d : Dec32) (coeff expn : Z) (ok : bool) :
  Decode d = (coeff, expn, ok) -> Sign d = -1 ->
  (Valid d = true <-> minExp <= expn <= maxExp) /\
  (Zero d = true <-> coeff = 0).
Proof.
  intros Hdec Hsign. unfold Valid, Zero. rewrite Hdec.
  rewrite Decode_spec, Sign_spec in *.
  assert (Hc : coeff = if Z.testbit d 31 then - rawCoeff d else rawCoeff d)
    by congruence.
  assert (Hok : ok = true) by congruence.
  pose proof (rawCoeff_range d) as Hr.
  destruct (Z.testbit d 31); [| discriminate Hsign].
  rewrite Hok, !andb_true_iff, orb_true_iff, Z.geb_le, !Z.leb_le, Z.eqb_eq,
    Z.gtb_ltb, Z.ltb_lt.
  unfold maxCoeff. split; split; try tauto; try lia.
Qed.

Lemma negative_words_witness :
  Decode 0xe40fffff = (-10485759, 0, true) /\ Sign 0xe40fffff = -1 /\
  (Valid 0xe40fffff = true <-> minExp <= 0 <= maxExp) /\
  (Zero 0xe40fffff = true <-> -10485759 = 0).
Proof.
  split; [reflexivity | split; [reflexivity |]].
  apply (negative_words 0xe40fffff (-10485759) 0 true); reflexivity.
Defined.

(** ** Decoding the special values *)

(** The two top bits of the exponent byte read in the large form. *)
Lemma rawExp_large_bits (d : Dec32) :
  Z.testbit d 29 && Z.testbit d 30 = true ->
  Z.testbit (rawExp d) 6 = Z.testbit d 27 /\
  Z.testbit (rawExp d) 7 = Z.testbit d 28.
Proof.
  intros Hb. destruct (raw_large_eq _ Hb) as [_ ->].
  repeat split; push_fields; decide_ltbs; cbn [andb orb negb];
    rewrite ?andb_true_r, ?andb_false_r, ?orb_false_r, ?orb_true_r;
    reflexivity.
Qed.

(** The reading of a word whose bits 30 to 27 are all set. *)
Lemma special_reading (d : Dec32) :
  Z.testbit d 30 = true -> Z.testbit d 29 = true ->
  Z.testbit d 28 = true -> Z.testbit d 27 = true ->
  -64 <= int8 (rawExp d) <= -1 /\
  (Z.testbit d 26 = false -> 8388608 <= rawCoeff d <= 9437183) /\
  (Z.testbit d 26 = true -> 9437184 <= rawCoeff d <= 10485759).
Proof.
  intros B30 B29 B28 B27.
  assert (Hb : Z.testbit d 29 && Z.testbit d 30 = true)
    by (rewrite B29, B30; reflexivity).
  destruct (rawCoeff_large_bits d Hb) as (C20 & C21 & C22 & C23).
  destruct (rawExp_large_bits d Hb) as (E6 & E7).
  rewrite B27 in E6. rewrite B28 in E7.
  pose proof (rawCoeff_range d) as Hc. pose proof (rawExp_range d) as He.
  apply Z.testbit_false in C21, C22; try lia.
  apply Z.testbit_true in C23, E6, E7; try lia.
  change (2 ^ 21) with 2097152 in C21. change (2 ^ 22) with 4194304 in C22.
  change (2 ^ 23) with 8388608 in C23. change (2 ^ 24) with 16777216 in Hc.
  change (2 ^ 6) with 64 in E6. change (2 ^ 7) with 128 in E7.
  change (2 ^ 8) with 256 in He.
  split; [| split].
  - assert (Hx : 192 <= rawExp d < 256) by (Z.div_mod_to_equations; lia).
    unfold int8, signed. change (8 - 1) with 7.
    assert (Hm : (rawExp d + 2 ^ 7) mod 2 ^ 8 = rawExp d - 128)
      by (symmetry; apply Z.mod_unique with (q := 1); lia).
    rewrite Hm. lia.
  - intros B26. rewrite B26 in C20.
    apply Z.testbit_false in C20; try lia.
    change (2 ^ 20) with 1048576 in C20.
    Z.div_mod_to_equations. lia.
  - intros B26. rewrite B26 in C20.
    apply Z.testbit_true in C20; try lia.
    change (2 ^ 20) with 1048576 in C20.
    Z.div_mod_to_equations. lia.
Qed.

(** X11. [Decode] does not reject the special values. An infinity decodes,
    with success, to an exponent of [[-64, -1]] and a coefficient of
    magnitude [[8388608, 9437183]], and [Valid] accepts it; a NaN decodes,
    with success, to an exponent of [[-64, -1]] and a coefficient of
    magnitude [[9437184, 10485759]]. *)
Theorem Decode_special (d : Dec32) (coeff expn : Z) (ok : bool) :
  Decode d = (coeff, expn, ok) ->
  (IsInf d = true ->
   ok = true /\ -64 <= expn <= -1 /\
   8388608 <= Z.abs coeff <= 9437183 /\ Valid d = true) /\
  (IsNaN d = true ->
   ok = true /\ -64 <= expn <= -1 /\ 9437184 <= Z.abs coeff <= 10485759).
Proof.
  intros Hdec.
  assert (Hvalid : Valid d =
                   ok && (expn >=? minExp) && (expn <=? maxExp) &&
                   (coeff <=? maxCoeff))
    by (unfold Valid; rewrite Hdec; reflexivity).
  rewrite Decode_spec in Hdec.
  assert (Hc : coeff = if Z.testbit d 31 then - rawCoeff d else rawCoeff d)
    by congruence.
  assert (He : expn = int8 (rawExp d)) by congruence.
  assert (Hok : ok = true) by congruence.
  assert (B0 : Z.testbit (combBits d) 0 = Z.testbit d 26)
    by (rewrite combBits_spec by lia; reflexivity).
  split; intros Hs.
  - assert (Hany : IsInf d || IsNaN d = true) by (rewrite Hs; reflexivity).
    apply special_top_bits in Hany. destruct Hany as (B30 & B29 & B28 & B27).
    destruct (special_reading d B30 B29 B28 B27) as (Hexp & Hinf & _).
    assert (B26 : Z.testbit d 26 = false).
    { rewrite <- B0. unfold IsInf in Hs. apply Z.eqb_eq in Hs.
      rewrite Hs. reflexivity. }
    specialize (Hinf B26).
    assert (Habs : 8388608 <= Z.abs coeff <= 9437183)
      by (rewrite Hc; destruct (Z.testbit d 31); lia).
    repeat split; try lia; try assumption; try (rewrite He; lia).
    rewrite Hvalid, Hok, He. unfold minExp, maxExp, maxCoeff.
    rewrite !andb_true_iff, Z.geb_le, !Z.leb_le.
    repeat split; lia.
  - assert (Hany : IsInf d || IsNaN d = true)
      by (rewrite Hs; apply orb_true_r).
    apply special_top_bits in Hany. destruct Hany as (B30 & B29 & B28 & B27).
    destruct (special_reading d B30 B29 B28 B27) as (Hexp & _ & Hnan).
    assert (B26 : Z.testbit d 26 = true).
    { rewrite <- B0. unfold IsNaN in Hs. apply Z.eqb_eq in Hs.
      rewrite Hs. reflexivity. }
    specialize (Hnan B26).
    repeat split; try assumption; try (rewrite He; lia);
      rewrite Hc; destruct (Z.testbit d 31); lia.
Qed.

Lemma Decode_special_witness :
  Decode 0x7bf00000 = (8388608, -1, true) /\
  (IsInf 0x7bf00000 = true ->
   true = true /\ -64 <= -1 <= -1 /\
   8388608 <= Z.abs 8388608 <= 9437183 /\ Valid 0x7bf00000 = true) /\
  (IsNaN 0x7bf00000 = true ->
   true = true /\ -64 <= -1 <= -1 /\ 9437184 <= Z.abs 8388608 <= 10485759).
Proof.
  split; [reflexivity |].
  apply (Decode_special 0x7bf00000 8388608 (-1) true). reflexivity.
Defined.

(** ** The continuation fields of an encoded word *)

Lemma packed_low_bits (m e i : Z) :
  0 <= m <= maxCoeff -> 0 <= i < 26 ->
  Z.testbit (packed m e) i =
  if i <? 20 then Z.testbit m i else Z.testbit e (i - 20).
Proof.
  intros Hm Hi.
  destruct (Z_lt_le_dec m (2 ^ 23)) as [Hsmall | Hbig].
  - rewrite packed_normal_bits by lia.
    destruct (Z.ltb_spec i 20); [reflexivity |].
    destruct (Z.ltb_spec i 26); [reflexivity | lia].
  - rewrite packed_large_bits by (try apply large_coeff_bits; lia).
    destruct (Z.ltb_spec i 20); [reflexivity |].
    destruct (Z.ltb_spec i 26); [reflexivity | lia].
Qed.

(** X13. In both forms the coefficient continuation of an encoded word
    holds the low 20 bits of the magnitude of the coefficient, and the
    exponent continuation the low 6 bits of the exponent byte. *)
Theorem EncodeDec32_continuations (c e : Z) :
  Z.abs c <= maxCoeff -> minExp <= e <= maxExp ->
  contBits (fst (EncodeDec32 c e)) = Z.abs c mod 2 ^ 20 /\
  expBits (fst (EncodeDec32 c e)) = uint8 e mod 2 ^ 6.
Proof.
  intros Hc He. rewrite encoded_word by assumption.
  assert (Hfields :
            contBits (packed (Z.abs c) e) = Z.abs c mod 2 ^ 20 /\
            expBits (packed (Z.abs c) e) = uint8 e mod 2 ^ 6).
  { unfold uint8, unsigned.
    split; apply Z.bits_inj'; intros i Hi.
    - rewrite contBits_spec, Z.testbit_mod_pow2 by lia.
      destruct (Z.ltb_spec i 20) as [Hlt | Hge]; [| reflexivity].
      rewrite packed_low_bits by lia.
      destruct (Z.ltb_spec i 20); [reflexivity | lia].
    - rewrite expBits_spec, !Z.testbit_mod_pow2 by lia.
      destruct (Z.ltb_spec i 6) as [Hlt | Hge]; [| reflexivity].
      rewrite packed_low_bits by lia.
      destruct (Z.ltb_spec (i + 20) 20); [lia |].
      destruct (Z.ltb_spec i 8); [| lia].
      replace (i + 20 - 20) with i by lia. reflexivity. }
  destruct (c <? 0).
  - rewrite contBits_lor_signMask, expBits_lor_signMask. exact Hfields.
  - exact Hfields.
Qed.

Lemma EncodeDec32_continuations_witness :
  Z.abs (-9999999) <= maxCoeff /\ minExp <= -95 <= maxExp /\
  contBits (fst (EncodeDec32 (-9999999) (-95))) = Z.abs (-9999999) mod 2 ^ 20 /\
  expBits (fst (EncodeDec32 (-9999999) (-95))) = uint8 (-95) mod 2 ^ 6.
Proof.
  split; [unfold maxCoeff; lia | split; [unfold_limits; lia |]].
  apply (EncodeDec32_continuations (-9999999) (-95)); unfold_limits; lia.
Defined.

(** ** Witnesses of the general results above *)

Lemma EncodeDec32_Decode_round_trip_witness :
  Z.abs (-2) <= maxCoeff /\ minExp <= -95 <= maxExp /\
  (2 ^ 23 <= Z.abs (-2) \/ -95 < -64 \/ 0 <= -95) /\
  exists w, EncodeDec32 (-2) (-95) = (w, true) /\ Decode w = (-2, -95, true).
Proof.
  split; [unfold maxCoeff; lia | split; [unfold_limits; lia |]].
  split; [right; left; lia |].
  apply (EncodeDec32_Decode_round_trip (-2) (-95));
    [unfold maxCoeff; lia | unfold_limits; lia | right; left; lia].
Defined.

Lemma EncodeDec32_Decode_collision_witness :
  Z.abs 2 < 2 ^ 23 /\ -64 <= -1 <= -1 /\
  exists w c' e',
    EncodeDec32 2 (-1) = (w, true) /\ Decode w = (c', e', true) /\
    2 ^ 23 <= Z.abs c'.
Proof.
  split; [lia | split; [lia |]].
  apply (EncodeDec32_Decode_collision 2 (-1)); lia.
Defined.

Lemma EncodeDec32_fails_iff_witness :
  - 2 ^ 31 < 2 < 2 ^ 31 /\
  (EncodeDec32 2 97 = (failDec32, false) <->
   maxCoeff < Z.abs 2 \/ 97 < minExp \/ maxExp < 97) /\
  (snd (EncodeDec32 2 97) = false -> fst (EncodeDec32 2 97) = failDec32) /\
  (Z.abs 2 <= maxCoeff -> minExp <= 97 <= maxExp ->
   snd (EncodeDec32 2 97) = true).
Proof.
  split; [lia | apply (EncodeDec32_fails_iff 2 97); lia].
Defined.


(** ** The multiplier of [Float32] *)

Lemma sf_eqb_eq (x y : spec_float) : sf_eqb x y = true -> x = y.
Proof.
  destruct x as [a | a | | s m e], y as [b | b | | s' m' e']; simpl;
    try discriminate; try reflexivity.
  - intros H. apply Bool.eqb_prop in H. congruence.
  - intros H. apply Bool.eqb_prop in H. congruence.
  - rewrite !andb_true_iff. intros [[Hs Hm] He].
    apply Bool.eqb_prop in Hs. apply Pos.eqb_eq in Hm. apply Z.eqb_eq in He.
    congruence.
Qed.

(** For every [int8] exponent the product [10.0 * float32(exp)] is exact:
    checked on the 256 values. *)
Lemma ten_times_exp_exact (e : Z) :
  -128 <= e <= 127 ->
  F32.mul (F32.of_int 10) (F32.of_int e) = F32.of_int (10 * e).
Proof.
  intros He.
  assert (Hall : List.forallb
                   (fun n => sf_eqb
                               (F32.mul (F32.of_int 10)
                                  (F32.of_int (Z.of_nat n - 128)))
                               (F32.of_int (10 * (Z.of_nat n - 128))))
                   (List.seq 0 256) = true)
    by (vm_compute; reflexivity).
  rewrite List.forallb_forall in Hall.
  specialize (Hall (Z.to_nat (e + 128))).
  replace (Z.of_nat (Z.to_nat (e + 128)) - 128) with e in Hall by lia.
  apply sf_eqb_eq, Hall. apply List.in_seq. lia.
Qed.

(** X14. What [Float32] computes on every word: with a positive exponent
    the coefficient times the [float32] of [10 * exp]; with a negative
    exponent the coefficient times the reciprocal of the [float32] of
    [10 * exp]; with a zero exponent the coefficient converted, with no
    multiplication. The NaN return is never taken. *)
Theorem Float32_spec (d : Dec32) (coeff expn : Z) (ok : bool) :
  Decode d = (coeff, expn, ok) ->
  (0 < expn ->
   Float32 d = F32.mul (F32.of_int coeff) (F32.of_int (10 * expn))) /\
  (expn < 0 ->
   Float32 d =
   F32.mul (F32.of_int coeff)
     (F32.div (F32.of_int 1) (F32.of_int (10 * expn)))) /\
  (expn = 0 -> Float32 d = F32.of_int coeff).
Proof.
  intros Hdec. unfold Float32. rewrite Hdec.
  rewrite Decode_spec in Hdec.
  assert (He : expn = int8 (rawExp d)) by congruence.
  assert (Hok : ok = true) by congruence.
  pose proof (int8_range (rawExp d)) as Hr. unfold is_int8 in Hr.
  rewrite <- He in Hr.
  rewrite Hok. simpl negb. cbv iota.
  rewrite ten_times_exp_exact by lia.
  rewrite Z.gtb_ltb.
  repeat split; intros Hsign.
  - destruct (Z.ltb_spec 0 expn); [reflexivity | lia].
  - destruct (Z.ltb_spec 0 expn); [lia |].
    destruct (Z.ltb_spec expn 0); [reflexivity | lia].
  - rewrite Hsign. reflexivity.
Qed.

Lemma Float32_spec_witness :
  Decode 0x00200001 = (1, 2, true) /\
  (0 < 2 ->
   Float32 0x00200001 = F32.mul (F32.of_int 1) (F32.of_int (10 * 2))) /\
  (2 < 0 ->
   Float32 0x00200001 =
   F32.mul (F32.of_int 1) (F32.div (F32.of_int 1) (F32.of_int (10 * 2)))) /\
  (2 = 0 -> Float32 0x00200001 = F32.of_int 1).
Proof.
  split; [reflexivity |].
  apply (Float32_spec 0x00200001 1 2 true). reflexivity.
Defined.
